(** * rejoice-slim: streaming buffer, volume segmenter and transcript assembler

    A shallow embedding of [src/audio_buffer.py], [src/volume_segmenter.py]
    and [src/quick_transcript.py], and the properties of the specification
    that concern them.

    Conventions of the embedding.
    - Python [int] is [Z]; Python [float] (times, durations, RMS volumes and
      audio samples) is the exact rational [Q]: rounding of binary floating
      point is not modelled.
    - Python exceptions are the [Raise] outcome of the small error monad [py].
    - [time.time()] is an explicit argument [now].
    - A numpy 1-D array is a [list]; slices follow Python's index rules.
    - Each region the source runs under a lock is one atomic function. *)

From Stdlib Require Import ZArith QArith Qround Qabs Lia Lqa Bool Ascii String.
From stdpp Require Import base option list gmap strings pretty.

Local Open Scope Z_scope.

(** ** Python outcomes *)

Inductive exn : Type :=
| ZeroDivisionError
| ValueError.

Inductive py (A : Type) : Type :=
| Ret (a : A)
| Raise (e : exn).
Arguments Ret {A} a.
Arguments Raise {A} e.

Definition py_bind {A B : Type} (m : py A) (k : A -> py B) : py B :=
  match m with
  | Ret a => k a
  | Raise e => Raise e
  end.

#[global] Instance py_mret : MRet py := @Ret.
#[global] Instance py_mbind : MBind py := fun A B k m => py_bind m k.

(** ** Python arithmetic *)

(** [a % n] on ints: the sign of the result follows the divisor. *)
Definition py_mod (a n : Z) : py Z :=
  if n =? 0 then Raise ZeroDivisionError else Ret (a mod n).

(** [a / b] on ints (true division). *)
Definition py_truediv (a b : Z) : py Q :=
  if b =? 0 then Raise ZeroDivisionError else Ret (inject_Z a / inject_Z b)%Q.

(** [int(x)] on a float: truncation toward zero. *)
Definition py_int (x : Q) : Z := Z.quot (Qnum x) (Z.pos (Qden x)).

Definition Qlt_bool (a b : Q) : bool := negb (Qle_bool b a).

(** [max(a, b)]: the first argument unless the second is strictly larger. *)
Definition py_max (a b : Q) : Q := if Qlt_bool a b then b else a.

Definition Qsum (l : list Q) : Q := foldr Qplus 0%Q l.

(** [np.mean] of a non-empty list. *)
Definition np_mean (l : list Q) : Q := (Qsum l / inject_Z (Z.of_nat (length l)))%Q.

(** [np.max] of a non-empty list. *)
Definition np_max (l : list Q) : Q :=
  match l with
  | [] => 0%Q
  | x :: r => fold_left (fun m y => if Qlt_bool m y then y else m) r x
  end.

(** ** Slices of a 1-D array *)

Section Slices.
Context {A : Type}.

(** A slice bound [i] of an array of length [n], clipped as Python does. *)
Definition norm_index (n : nat) (i : Z) : nat :=
  if i <? 0 then Z.to_nat (Z.max 0 (i + Z.of_nat n))
  else Z.to_nat (Z.min i (Z.of_nat n)).

(** [l[lo:hi]] *)
Definition slice (l : list A) (lo hi : Z) : list A :=
  let lo' := norm_index (length l) lo in
  let hi' := norm_index (length l) hi in
  take (hi' - lo')%nat (drop lo' l).

(** [l[lo:]] *)
Definition slice_from (l : list A) (lo : Z) : list A :=
  drop (norm_index (length l) lo) l.

(** [l[:hi]] *)
Definition slice_to (l : list A) (hi : Z) : list A :=
  take (norm_index (length l) hi) l.

(** [l[lo:hi] = data] on a numpy array: the data must have the length of
    the slice, or length one (it is then broadcast). *)
Definition set_slice (l : list A) (lo hi : Z) (data : list A) : py (list A) :=
  let lo' := norm_index (length l) lo in
  let hi' := norm_index (length l) hi in
  let len := (hi' - lo')%nat in
  if (length data =? len)%nat then
    Ret (take lo' l ++ data ++ drop (lo' + len)%nat l)
  else
    match data with
    | [x] => Ret (take lo' l ++ replicate len x ++ drop (lo' + len)%nat l)
    | _ => Raise ValueError
    end.

(** [l[lo:] = data] *)
Definition set_slice_from (l : list A) (lo : Z) (data : list A) : py (list A) :=
  set_slice l lo (Z.of_nat (length l)) data.

(** [l[:hi] = data] *)
Definition set_slice_to (l : list A) (hi : Z) (data : list A) : py (list A) :=
  set_slice l 0 hi data.
End Slices.

(** ** Strings *)

(** [str.isspace] on one character (code points below 256). *)
Definition is_space (c : ascii) : bool :=
  let n := nat_of_ascii c in
  ((9 <=? n) && (n <=? 13) || (28 <=? n) && (n <=? 32) || (n =? 133) || (n =? 160))%nat.

Fixpoint lstrip (s : string) : string :=
  match s with
  | String c r => if is_space c then lstrip r else s
  | EmptyString => EmptyString
  end.

Fixpoint rstrip (s : string) : string :=
  match s with
  | String c r =>
      match rstrip r with
      | EmptyString => if is_space c then EmptyString else String c EmptyString
      | r' => String c r'
      end
  | EmptyString => EmptyString
  end.

(** [s.strip()] *)
Definition strip (s : string) : string := rstrip (lstrip s).

(** [sep.join(parts)] *)
Fixpoint str_join (sep : string) (parts : list string) : string :=
  match parts with
  | [] => EmptyString
  | [p] => p
  | p :: rest => (p ++ sep ++ str_join sep rest)%string
  end.

(** Truth value of a string: non-empty. *)
Definition str_truthy (s : string) : bool :=
  match s with EmptyString => false | _ => true end.

(** [f"{x:.1f}"]: one decimal, ties to even. *)
Definition format_1f (x : Q) : string :=
  let a := Qabs x in
  let scaled := (a * 10)%Q in
  let fl := Qfloor scaled in
  let twice := Qfloor (scaled * 2)%Q - 2 * fl in
  let exact_half := Qeq_bool (scaled * 2)%Q (inject_Z (2 * fl + 1)) in
  let tenths :=
    if twice =? 0 then fl
    else if exact_half then (if Z.even fl then fl else fl + 1)
    else fl + 1 in
  let body := (pretty (tenths / 10) ++ "." ++ pretty (tenths mod 10))%string in
  if Qlt_bool x 0 then ("-" ++ body)%string else body.

Definition Sample : Type := Q.

(** Truth value of [self.start_time]: set, and not the float [0.0]. *)
Definition time_truthy (o : option Q) : bool :=
  match o with
  | Some t => negb (Qeq_bool t 0)
  | None => false
  end.

(** ** [audio_buffer.py]: [CircularAudioBuffer] *)

Module CircularAudioBuffer.

Record t : Type := mk {
  capacity_seconds : Z;
  sample_rate : Z;
  channels : Z;
  buffer_size : Z;
  buffer : list Sample;
  write_position : Z;
  total_samples_written : Z;
  start_time : option Q;
  is_recording : bool;
  last_write_time : Q
}.

(** [__init__]; [np.zeros] refuses a negative size. *)
Definition init (capacity_seconds sample_rate channels : Z) (now : Q) : py t :=
  let buffer_size := capacity_seconds * sample_rate * channels in
  if buffer_size <? 0 then Raise ValueError
  else Ret (mk capacity_seconds sample_rate channels buffer_size
               (replicate (Z.to_nat buffer_size) 0%Q) 0 0 None false now).

Definition start_recording (b : t) (now : Q) : t :=
  mk (capacity_seconds b) (sample_rate b) (channels b) (buffer_size b) (buffer b)
     0 0 (Some now) true now.

Definition stop_recording (b : t) : t :=
  mk (capacity_seconds b) (sample_rate b) (channels b) (buffer_size b) (buffer b)
     (write_position b) (total_samples_written b) (start_time b) false
     (last_write_time b).

Definition write (b : t) (audio_data : list Sample) (now : Q) : py t :=
  if negb (is_recording b) then Ret b
  else
    let data_length := Z.of_nat (length audio_data) in
    let end_position := write_position b + data_length in
    buffer' ←
      (if end_position <=? buffer_size b then
         set_slice (buffer b) (write_position b) end_position audio_data
       else
         let first_part_size := buffer_size b - write_position b in
         let second_part_size := data_length - first_part_size in
         buffer1 ← set_slice_from (buffer b) (write_position b)
                                  (slice_to audio_data first_part_size);
         set_slice_to buffer1 second_part_size
                      (slice_from audio_data first_part_size));
    write_position' ← py_mod end_position (buffer_size b);
    Ret (mk (capacity_seconds b) (sample_rate b) (channels b) (buffer_size b)
            buffer' write_position'
            (total_samples_written b + data_length)
            (start_time b) (is_recording b) now).

(** The sample positions [read_segment] computes from its arguments. *)
Definition start_sample_of (b : t) (start_time_offset : Q) : Z :=
  py_int (start_time_offset * inject_Z (sample_rate b) * inject_Z (channels b))%Q.

Definition duration_samples_of (b : t) (duration : Q) : Z :=
  py_int (duration * inject_Z (sample_rate b) * inject_Z (channels b))%Q.

(** [read_segment]; [None] is the unavailable result. *)
Definition read_segment (b : t) (start_time_offset duration : Q)
  : py (option (list Sample)) :=
  if negb (time_truthy (start_time b)) then Ret None
  else
    let start_sample := start_sample_of b start_time_offset in
    let duration_samples := duration_samples_of b duration in
    let end_sample := start_sample + duration_samples in
    if start_sample <? total_samples_written b - buffer_size b then Ret None
    else if total_samples_written b <? end_sample then Ret None
    else
      buffer_start ← py_mod start_sample (buffer_size b);
      buffer_end ← py_mod (start_sample + duration_samples) (buffer_size b);
      if buffer_start <? buffer_end then
        Ret (Some (slice (buffer b) buffer_start buffer_end))
      else
        Ret (Some (slice_from (buffer b) buffer_start
                     ++ slice_to (buffer b) buffer_end)).

Definition get_recording_duration (b : t) (now : Q) : py Q :=
  if total_samples_written b =? 0 then
    if is_recording b && time_truthy (start_time b) then
      Ret (now - default 0%Q (start_time b))%Q
    else Ret 0%Q
  else py_truediv (total_samples_written b) (sample_rate b * channels b).

Definition get_available_duration (b : t) : py Q :=
  let available_samples := Z.min (total_samples_written b) (buffer_size b) in
  py_truediv available_samples (sample_rate b * channels b).

Definition clear (b : t) : t :=
  mk (capacity_seconds b) (sample_rate b) (channels b) (buffer_size b)
     (replicate (length (buffer b)) 0%Q) 0 0 None false (last_write_time b).

(** A sequence of [write] calls, each with the clock reading of its call. *)
Fixpoint writes (b : t) (ws : list (list Sample * Q)) : py t :=
  match ws with
  | [] => Ret b
  | (audio_data, now) :: rest => b' ← write b audio_data now; writes b' rest
  end.

(** Positive sample rate, channel count and capacity. *)
Definition well_formed (b : t) : Prop :=
  0 < sample_rate b * channels b /\ 0 < buffer_size b.

Definition get_latest_segment (b : t) (duration : Q) : py (option (list Sample)) :=
  if negb (is_recording b) || negb (time_truthy (start_time b)) then Ret None
  else
    audio_data_duration ←
      py_truediv (total_samples_written b) (sample_rate b * channels b);
    if Qlt_bool audio_data_duration duration then Ret None
    else
      let start_offset := (audio_data_duration - duration)%Q in
      read_segment b start_offset duration.

End CircularAudioBuffer.

(** ** [audio_buffer.py]: [BufferSegmentIterator] *)

Module BufferSegmentIterator.

Record t : Type := mk {
  window_size : Q;
  overlap : Q;
  step_size : Q;
  current_position : Q
}.

Definition init (window_size overlap : Q) : t :=
  mk window_size overlap (window_size - overlap)%Q 0%Q.

Definition reset_to_position (it : t) (position : Q) : t :=
  mk (window_size it) (overlap it) (step_size it) (py_max 0%Q position).

Definition has_next (it : t) (b : CircularAudioBuffer.t) : py bool :=
  available_duration ← CircularAudioBuffer.get_available_duration b;
  Ret (Qle_bool (current_position it + window_size it)%Q available_duration).

(** [__next__]; [None] stands for [StopIteration]. *)
Definition next (it : t) (b : CircularAudioBuffer.t)
  : py (option (Q * list Sample * t)) :=
  available_duration ← CircularAudioBuffer.get_available_duration b;
  if Qlt_bool available_duration (current_position it + window_size it)%Q then
    Ret None
  else
    segment ← CircularAudioBuffer.read_segment b (current_position it) (window_size it);
    match segment with
    | None => Ret None
    | Some segment =>
        let timestamp := current_position it in
        Ret (Some (timestamp, segment,
                   mk (window_size it) (overlap it) (step_size it)
                      (current_position it + step_size it)%Q))
    end.

End BufferSegmentIterator.

(** ** [volume_segmenter.py] *)

Record SegmentInfo : Type := mkSegmentInfo {
  start_time : Q;
  end_time : Q;
  duration : Q;
  reason : string;
  avg_volume : Q;
  peak_volume : Q;
  silence_duration : Q
}.

Record VolumeConfig : Type := mkVolumeConfig {
  min_segment_duration : Q;
  target_segment_duration : Q;
  max_segment_duration : Q;
  volume_drop_threshold : Q;
  silence_threshold : Q;
  min_pause_duration : Q;
  analysis_window : Q;
  lookback_window : Q
}.

(** The dataclass defaults. *)
Definition default_config : VolumeConfig :=
  mkVolumeConfig 30 45 90 (7 # 10) (2 # 100) (1 # 2) 1 5.

Module VolumeSegmenter.

Record t : Type := mk {
  config : VolumeConfig;
  current_segment_start : Q;
  last_analysis_time : Q;
  last_speech_time : Q;
  volume_history : list (Q * Q);
  detected_segments : list SegmentInfo;
  is_analyzing : bool
}.

Definition init (config : VolumeConfig) : t :=
  mk config 0 0 0 [] [] false.

Definition start_analysis (s : t) : t :=
  mk (config s) 0 0 0 [] [] true.

Definition stop_analysis (s : t) : t :=
  mk (config s) (current_segment_start s) (last_analysis_time s)
     (last_speech_time s) (volume_history s) (detected_segments s) false.

Definition _get_average_volume_in_range (s : t) (start_time end_time : Q) : Q :=
  let relevant_volumes :=
    map snd (List.filter (fun tv => Qle_bool start_time (fst tv) && Qle_bool (fst tv) end_time)
                    (volume_history s)) in
  match relevant_volumes with
  | [] => 0%Q
  | _ => np_mean relevant_volumes
  end.

Definition _get_peak_volume_in_range (s : t) (start_time end_time : Q) : Q :=
  let relevant_volumes :=
    map snd (List.filter (fun tv => Qle_bool start_time (fst tv) && Qle_bool (fst tv) end_time)
                    (volume_history s)) in
  match relevant_volumes with
  | [] => 0%Q
  | _ => np_max relevant_volumes
  end.

Definition _create_segment (s : t) (end_time : Q) (reason : string)
           (silence_duration : Q) : SegmentInfo :=
  let duration := (end_time - current_segment_start s)%Q in
  mkSegmentInfo (current_segment_start s) end_time duration reason
    (_get_average_volume_in_range s (current_segment_start s) end_time)
    (_get_peak_volume_in_range s (current_segment_start s) end_time)
    silence_duration.

(** [_finalize_segment]; the optional callback only observes the segment
    and its exceptions are swallowed, so it is left out. *)
Definition _finalize_segment (s : t) (segment : SegmentInfo) : t :=
  mk (config s) (end_time segment) (last_analysis_time s) (last_speech_time s)
     (volume_history s) (detected_segments s ++ [segment]) (is_analyzing s).

(** The test [is_silence] of one window against the baseline. *)
Definition is_silence (cfg : VolumeConfig) (baseline_volume volume : Q) : bool :=
  Qlt_bool volume (silence_threshold cfg)
  || Qlt_bool volume (baseline_volume * volume_drop_threshold cfg)%Q.

(** The [for ... in enumerate(recent_volumes)] loop of
    [_detect_natural_pause]: the result is [(silence_start, silence_end)]
    at the [break] or at the end of the list. *)
Fixpoint scan_silence (cfg : VolumeConfig) (baseline_volume : Q)
         (recent_volumes : list (Q * Q)) (silence_start : option Q)
  : option Q * option Q :=
  match recent_volumes with
  | [] => (silence_start, None)
  | (timestamp, volume) :: rest =>
      match is_silence cfg baseline_volume volume, silence_start with
      | true, None => scan_silence cfg baseline_volume rest (Some timestamp)
      | false, Some _ => (silence_start, Some timestamp)
      | _, _ => scan_silence cfg baseline_volume rest silence_start
      end
  end.

Definition recent_volumes_of (s : t) (current_time : Q) : list (Q * Q) :=
  let lookback_start := (current_time - lookback_window (config s))%Q in
  List.filter (fun tv => Qle_bool lookback_start (fst tv)) (volume_history s).

Definition baseline_volumes_of (s : t) (current_time : Q) : list Q :=
  let baseline_start :=
    py_max (current_segment_start s) (current_time - lookback_window (config s))%Q in
  map snd (List.filter (fun tv => Qle_bool baseline_start (fst tv)
                             && Qle_bool (fst tv) (current_time - 2)%Q)
                  (recent_volumes_of s current_time)).

Definition _detect_natural_pause (s : t) (current_time : Q) : option (Q * Q) :=
  if (length (volume_history s) <? 3)%nat then None
  else
    let recent_volumes := recent_volumes_of s current_time in
    if (length recent_volumes <? 3)%nat then None
    else
      let baseline_volumes := baseline_volumes_of s current_time in
      match baseline_volumes with
      | [] => None
      | _ =>
          let baseline_volume := np_mean baseline_volumes in
          let '(silence_start, silence_end) :=
            scan_silence (config s) baseline_volume recent_volumes None in
          let silence_end :=
            match silence_start, silence_end with
            | Some _, None => Some current_time
            | _, _ => silence_end
            end in
          match silence_start, silence_end with
          | Some silence_start, Some silence_end =>
              let silence_duration := (silence_end - silence_start)%Q in
              if Qle_bool (min_pause_duration (config s)) silence_duration
              then Some (silence_end, silence_duration)
              else None
          | _, _ => None
          end
      end.

Definition _check_for_segment_boundary (s : t) (current_time : Q)
  : option SegmentInfo :=
  let current_duration := (current_time - current_segment_start s)%Q in
  if Qle_bool (max_segment_duration (config s)) current_duration then
    Some (_create_segment s current_time "max_length" 0)
  else if Qlt_bool current_duration (min_segment_duration (config s)) then None
  else if Qle_bool (target_segment_duration (config s)) current_duration then
    match _detect_natural_pause s current_time with
    | Some (pause_end_time, silence_duration) =>
        Some (_create_segment s pause_end_time "natural_pause" silence_duration)
    | None => None
    end
  else None.

Definition flush_remaining_segment (s : t) (b : CircularAudioBuffer.t) (now : Q)
  : py (option SegmentInfo * t) :=
  if negb (is_analyzing s) then Ret (None, s)
  else
    current_time ← CircularAudioBuffer.get_recording_duration b now;
    let remaining_duration := (current_time - current_segment_start s)%Q in
    if Qlt_bool remaining_duration 5 then Ret (None, s)
    else
      let segment :=
        mkSegmentInfo (current_segment_start s) current_time remaining_duration
          "final_flush"
          (_get_average_volume_in_range s (current_segment_start s) current_time)
          (_get_peak_volume_in_range s (current_segment_start s) current_time)
          0 in
      Ret (Some segment, _finalize_segment s segment).

Section Analysis.
(** [np.sqrt]: square roots are not rational, so the function is a
    parameter of the analysis. *)
Variable np_sqrt : Q -> Q.

Definition _calculate_rms (audio_data : list Sample) : Q :=
  match audio_data with
  | [] => 0%Q
  | _ => np_sqrt (np_mean (map (fun x => x * x)%Q audio_data))
  end.

Definition record_window (s : t) (timestamp rms_volume : Q) : t :=
  mk (config s) (current_segment_start s) (last_analysis_time s)
     (if Qle_bool (silence_threshold (config s)) rms_volume
      then timestamp else last_speech_time s)
     (volume_history s ++ [(timestamp, rms_volume)])
     (detected_segments s) (is_analyzing s).

(** The [while iterator.has_next()] loop of [_update_volume_history].
    [None]: the fuel ran out before the loop ended. *)
Fixpoint update_loop (fuel : nat) (s : t) (b : CircularAudioBuffer.t)
         (current_time : Q) (iterator : BufferSegmentIterator.t)
  : option (py t) :=
  match fuel with
  | O => None
  | S fuel =>
      match BufferSegmentIterator.has_next iterator b with
      | Raise e => Some (Raise e)
      | Ret false => Some (Ret s)
      | Ret true =>
          match BufferSegmentIterator.next iterator b with
          | Raise e => Some (Raise e)
          | Ret None => Some (Ret s)
          | Ret (Some (timestamp, audio_segment, iterator')) =>
              if Qle_bool current_time timestamp then Some (Ret s)
              else
                let rms_volume := _calculate_rms audio_segment in
                update_loop fuel (record_window s timestamp rms_volume)
                            b current_time iterator'
          end
      end
  end.

Definition trim_history (s : t) (current_time : Q) : t :=
  let cutoff_time := (current_time - lookback_window (config s) * 2)%Q in
  mk (config s) (current_segment_start s) (last_analysis_time s)
     (last_speech_time s)
     (List.filter (fun tv => Qle_bool cutoff_time (fst tv)) (volume_history s))
     (detected_segments s) (is_analyzing s).

Definition _update_volume_history (fuel : nat) (s : t)
           (b : CircularAudioBuffer.t) (current_time : Q)
  : option (py (list SegmentInfo * t)) :=
  let analysis_start := py_max (last_analysis_time s) 0%Q in
  let iterator :=
    BufferSegmentIterator.reset_to_position
      (BufferSegmentIterator.init (analysis_window (config s)) 0%Q)
      analysis_start in
  match update_loop fuel s b current_time iterator with
  | None => None
  | Some (Raise e) => Some (Raise e)
  | Some (Ret s') => Some (Ret ([], trim_history s' current_time))
  end.

Definition set_last_analysis_time (s : t) (current_time : Q) : t :=
  mk (config s) (current_segment_start s) current_time (last_speech_time s)
     (volume_history s) (detected_segments s) (is_analyzing s).

Definition analyze_and_segment (fuel : nat) (s : t)
           (b : CircularAudioBuffer.t) (now : Q)
  : option (py (list SegmentInfo * t)) :=
  if negb (is_analyzing s) then Some (Ret ([], s))
  else
    match CircularAudioBuffer.get_recording_duration b now with
    | Raise e => Some (Raise e)
    | Ret current_time =>
        if Qle_bool current_time (last_analysis_time s) then Some (Ret ([], s))
        else
          match _update_volume_history fuel s b current_time with
          | None => None
          | Some (Raise e) => Some (Raise e)
          | Some (Ret (new_segments, s1)) =>
              match _check_for_segment_boundary s1 current_time with
              | Some segment =>
                  Some (Ret (new_segments ++ [segment],
                             set_last_analysis_time
                               (_finalize_segment s1 segment) current_time))
              | None =>
                  Some (Ret (new_segments,
                             set_last_analysis_time s1 current_time))
              end
          end
    end.

(** One call of the polling driver on the segmenter, with the buffer
    and the clock as they are at the call. *)
Inductive op : Type :=
| Analyze (b : CircularAudioBuffer.t) (now : Q)
| Flush (b : CircularAudioBuffer.t) (now : Q)
| Stop.

(** Runs the calls in order; the result lists every emitted segment. *)
Fixpoint run (fuel : nat) (s : t) (ops : list op)
  : option (py (list SegmentInfo * t)) :=
  match ops with
  | [] => Some (Ret ([], s))
  | o :: rest =>
      let step :=
        match o with
        | Analyze b now => analyze_and_segment fuel s b now
        | Flush b now =>
            Some (r ← flush_remaining_segment s b now;
                  Ret (match fst r with Some seg => [seg] | None => [] end, snd r))
        | Stop => Some (Ret ([], stop_analysis s))
        end in
      match step with
      | None => None
      | Some (Raise e) => Some (Raise e)
      | Some (Ret (emitted, s1)) =>
          match run fuel s1 rest with
          | None => None
          | Some (Raise e) => Some (Raise e)
          | Some (Ret (emitted', s2)) => Some (Ret (emitted ++ emitted', s2))
          end
      end
  end.
End Analysis.

Definition get_current_silence_duration (s : t) (b : CircularAudioBuffer.t)
           (now : Q) : py Q :=
  current_time ← CircularAudioBuffer.get_recording_duration b now;
  Ret (current_time - last_speech_time s)%Q.

Definition get_detected_segments (s : t) : list SegmentInfo :=
  detected_segments s.

Definition clear_segments (s : t) : t :=
  mk (config s) (current_segment_start s) (last_analysis_time s)
     (last_speech_time s) (volume_history s) [] (is_analyzing s).

End VolumeSegmenter.

(** ** [volume_segmenter.py]: [SegmentProcessor] *)

Module SegmentProcessor.

Record t : Type := mk {
  processed_segments : gmap string (list Sample)
}.

Definition init : t := mk ∅.

Definition segment_id_of (segment : SegmentInfo) : string :=
  (format_1f (start_time segment) ++ "-" ++ format_1f (end_time segment))%string.

(** The [for attempt in range(max_retries)] loop of
    [extract_segment_audio], from attempt number [attempt] with
    [remaining] attempts to go. The producer thread writes while the
    loop sleeps: [buffers i] is the buffer as attempt [i] finds it. *)
Fixpoint retry (remaining attempt : nat) (p : t)
         (buffers : nat -> CircularAudioBuffer.t) (segment : SegmentInfo)
  : py (option (list Sample) * t) :=
  match remaining with
  | O => Ret (None, p)
  | S remaining =>
      audio_data ← CircularAudioBuffer.read_segment (buffers attempt)
                     (start_time segment) (duration segment);
      match audio_data with
      | Some audio_data =>
          Ret (Some audio_data,
               mk (<[segment_id_of segment := audio_data]> (processed_segments p)))
      | None => retry remaining (S attempt) p buffers segment
      end
  end.

Definition max_retries : nat := 10.

Definition extract_segment_audio (p : t)
           (buffers : nat -> CircularAudioBuffer.t) (segment : SegmentInfo)
  : py (option (list Sample) * t) :=
  retry max_retries 0 p buffers segment.

End SegmentProcessor.

(** ** [quick_transcript.py] *)

Inductive Status : Type :=
| pending
| processing
| completed
| failed.

Definition Status_eqb (a b : Status) : bool :=
  match a, b with
  | pending, pending | processing, processing
  | completed, completed | failed, failed => true
  | _, _ => false
  end.

Record TranscriptionSegment : Type := mkTranscriptionSegment {
  segment_info : SegmentInfo;
  transcription : string;
  timestamp : Q;
  processing_time : Q;
  status : Status;
  error : option string
}.

Record ProcessingStats : Type := mkProcessingStats {
  segments_received : Z;
  segments_completed : Z;
  segments_failed : Z;
  total_processing_time : Q
}.

Record QuickTranscriptResult : Type := mkQuickTranscriptResult {
  transcript_id : option string;
  transcript_text : string;
  segments_count : Z;
  total_duration : Q;
  processing_summary : ProcessingStats * Q;
  file_path : string;
  clipboard_copied : bool;
  has_content : bool
}.

Module QuickTranscriptAssembler.

Record t : Type := mk {
  auto_clipboard : bool;
  current_session : option string;
  final_transcript_id : option string;
  transcription_segments : gmap string TranscriptionSegment;
  segment_order : list string;
  is_processing : bool;
  recent_segment_texts : list string;
  empty_segment_threshold : Z;
  empty_segment_min_chars : Z;
  session_start_time : option Q;
  processing_stats : ProcessingStats;
  transcript_ready_callback : bool
}.

(** [__init__]; the two thresholds are read from the environment. *)
Definition init (auto_clipboard : bool)
           (empty_segment_threshold empty_segment_min_chars : Z) : t :=
  mk auto_clipboard None None ∅ [] false [] empty_segment_threshold
     empty_segment_min_chars None (mkProcessingStats 0 0 0 0) false.

Definition set_segments (a : t) (segs : gmap string TranscriptionSegment)
           (stats : ProcessingStats) : t :=
  mk (auto_clipboard a) (current_session a) (final_transcript_id a) segs
     (segment_order a) (is_processing a) (recent_segment_texts a)
     (empty_segment_threshold a) (empty_segment_min_chars a)
     (session_start_time a) stats (transcript_ready_callback a).

(** [start_session]; the sliding window of texts is not among the fields
    it resets. *)
Definition start_session (a : t) (session_id : string) (now : Q) : t :=
  mk (auto_clipboard a) (Some session_id) (final_transcript_id a) ∅ [] true
     (recent_segment_texts a) (empty_segment_threshold a)
     (empty_segment_min_chars a) (Some now) (mkProcessingStats 0 0 0 0)
     (transcript_ready_callback a).

Definition segment_id_of (segment_info : SegmentInfo) : string :=
  ("seg_" ++ format_1f (start_time segment_info) ++ "_"
          ++ format_1f (end_time segment_info))%string.

(** [add_segment_for_transcription], up to the start of the background
    thread; the steps of that thread are the functions below. *)
Definition add_segment_for_transcription (a : t) (segment_info : SegmentInfo)
           (now : Q) : string * t :=
  if negb (is_processing a) then (EmptyString, a)
  else
    let segment_id := segment_id_of segment_info in
    let transcription_segment :=
      mkTranscriptionSegment segment_info EmptyString now 0 pending None in
    let stats := processing_stats a in
    (segment_id,
     mk (auto_clipboard a) (current_session a) (final_transcript_id a)
        (<[segment_id := transcription_segment]> (transcription_segments a))
        (segment_order a ++ [segment_id]) (is_processing a)
        (recent_segment_texts a) (empty_segment_threshold a)
        (empty_segment_min_chars a) (session_start_time a)
        (mkProcessingStats (segments_received stats + 1) (segments_completed stats)
           (segments_failed stats) (total_processing_time stats))
        (transcript_ready_callback a)).

(** [_transcribe_segment], first locked region. *)
Definition transcribe_begin (a : t) (segment_id : string) : t :=
  match transcription_segments a !! segment_id with
  | None => a
  | Some seg =>
      set_segments a
        (<[segment_id := mkTranscriptionSegment (segment_info seg) (transcription seg)
                           (timestamp seg) (processing_time seg) processing (error seg)]>
           (transcription_segments a))
        (processing_stats a)
  end.

(** [_transcribe_segment], second locked region, with the text the
    transcription contract returned. *)
Definition transcribe_complete (a : t) (segment_id : string)
           (transcription : string) (processing_time : Q) : t :=
  match transcription_segments a !! segment_id with
  | None => a
  | Some seg =>
      let stats := processing_stats a in
      set_segments a
        (<[segment_id := mkTranscriptionSegment (segment_info seg) transcription
                           (timestamp seg) processing_time completed (error seg)]>
           (transcription_segments a))
        (mkProcessingStats (segments_received stats) (segments_completed stats + 1)
           (segments_failed stats) (total_processing_time stats + processing_time)%Q)
  end.

(** [_transcribe_segment], the [except] branch. *)
Definition transcribe_failed (a : t) (segment_id : string) (err : string) : t :=
  match transcription_segments a !! segment_id with
  | None => a
  | Some seg =>
      let stats := processing_stats a in
      set_segments a
        (<[segment_id := mkTranscriptionSegment (segment_info seg) (transcription seg)
                           (timestamp seg) (processing_time seg) failed (Some err)]>
           (transcription_segments a))
        (mkProcessingStats (segments_received stats) (segments_completed stats)
           (segments_failed stats + 1) (total_processing_time stats))
  end.

Definition _update_empty_segment_counter (a : t) (transcription : string) : t :=
  let appended :=
    recent_segment_texts a
      ++ [if str_truthy transcription then strip transcription else EmptyString] in
  let kept :=
    if empty_segment_threshold a <? Z.of_nat (length appended)
    then tail appended else appended in
  mk (auto_clipboard a) (current_session a) (final_transcript_id a)
     (transcription_segments a) (segment_order a) (is_processing a) kept
     (empty_segment_threshold a) (empty_segment_min_chars a)
     (session_start_time a) (processing_stats a) (transcript_ready_callback a).

(** The [for segment_id in self.segment_order] loop of
    [get_current_transcript], with [transcript_parts] as accumulator. *)
Fixpoint collect_parts (segs : gmap string TranscriptionSegment)
         (order : list string) (transcript_parts : list string) : list string :=
  match order with
  | [] => transcript_parts
  | segment_id :: rest =>
      match segs !! segment_id with
      | Some segment =>
          if Status_eqb (status segment) completed
             && str_truthy (strip (transcription segment))
          then collect_parts segs rest
                 (transcript_parts ++ [strip (transcription segment)])
          else collect_parts segs rest transcript_parts
      | None => collect_parts segs rest transcript_parts
      end
  end.

Definition get_current_transcript (a : t) : string :=
  str_join " " (collect_parts (transcription_segments a) (segment_order a) []).

Definition should_auto_stop (a : t) : bool * string :=
  if Z.of_nat (length (recent_segment_texts a)) <? empty_segment_threshold a
  then (false, EmptyString)
  else
    let combined_text := strip (str_join " " (recent_segment_texts a)) in
    let combined_length := Z.of_nat (String.length combined_text) in
    if combined_length <? empty_segment_min_chars a then
      (true,
       ("Last " ++ pretty (empty_segment_threshold a)
        ++ " segments combined have < " ++ pretty (empty_segment_min_chars a)
        ++ " chars (" ++ pretty combined_length ++ " chars)")%string)
    else (false, EmptyString).

(** What the background threads and the driver do to the assembler,
    one locked region each. *)
Inductive event : Type :=
| Submit (segment_info : SegmentInfo) (now : Q)
| Begin (segment_id : string)
| Complete (segment_id : string) (transcription : string) (processing_time : Q)
| UpdateCounter (transcription : string)
| Failed (segment_id : string) (err : string).

Definition apply_event (a : t) (e : event) : t :=
  match e with
  | Submit segment_info now => snd (add_segment_for_transcription a segment_info now)
  | Begin segment_id => transcribe_begin a segment_id
  | Complete segment_id transcription processing_time =>
      transcribe_complete a segment_id transcription processing_time
  | UpdateCounter transcription => _update_empty_segment_counter a transcription
  | Failed segment_id err => transcribe_failed a segment_id err
  end.

Definition run_events (a : t) (events : list event) : t :=
  fold_left apply_event events a.

Definition is_unsettled (seg : TranscriptionSegment) : bool :=
  Status_eqb (status seg) pending || Status_eqb (status seg) processing.

Definition pending_count (a : t) : nat :=
  length (List.filter (fun kv => is_unsettled (snd kv))
                 (map_to_list (transcription_segments a))).

(** [wait_for_completion]: each element of [polls] is one turn of the
    loop taken before the deadline, with the events of the other threads
    during its [sleep]; the deadline has passed when the list is used up. *)
Fixpoint wait_for_completion (a : t) (polls : list (list event)) : bool * t :=
  match polls with
  | [] => (false, a)
  | during_sleep :: rest =>
      if (pending_count a =? 0)%nat then (true, a)
      else wait_for_completion (run_events a during_sleep) rest
  end.

(** The external collaborators. *)
Record world : Type := mkWorld {
  create_new_transcript : string -> option (string * string);
  copy_to_clipboard : string -> bool
}.

(** Calls that leave the assembler. *)
Inductive call : Type :=
| CallPersist (text : string)
| CallClipboard (text : string)
| CallTranscriptReady (result : QuickTranscriptResult).

Definition completed_segments_of (a : t) : list TranscriptionSegment :=
  List.filter (fun seg => Status_eqb (status seg) completed)
         (map snd (map_to_list (transcription_segments a))).

Definition finalize_transcript (w : world) (a : t) (polls : list (list event))
           (now : Q) : option QuickTranscriptResult * t * list call :=
  if negb (str_truthy (default EmptyString (current_session a))) then (None, a, [])
  else
    let a := snd (wait_for_completion a polls) in
    let final_transcript := strip (get_current_transcript a) in
    let has_content := str_truthy final_transcript in
    let completed_segments := completed_segments_of a in
    let total_duration :=
      match completed_segments with
      | [] => 0%Q
      | _ => np_max (map (fun s => end_time (segment_info s)) completed_segments)
      end in
    let processing_summary :=
      (processing_stats a, (now - default 0%Q (session_start_time a))%Q) in
    let '(file_path, final_id, calls1) :=
      if has_content then
        match create_new_transcript w final_transcript with
        | Some (path, transcript_id) =>
            (path, Some transcript_id, [CallPersist final_transcript])
        | None => (EmptyString, final_transcript_id a, [CallPersist final_transcript])
        end
      else (EmptyString, None, []) in
    let '(clipboard_success, calls2) :=
      if auto_clipboard a && has_content
      then (copy_to_clipboard w final_transcript, [CallClipboard final_transcript])
      else (false, []) in
    let result :=
      mkQuickTranscriptResult
        (match final_id with
         | Some i => if str_truthy i then Some i else current_session a
         | None => current_session a
         end)
        final_transcript (Z.of_nat (length completed_segments)) total_duration
        processing_summary file_path clipboard_success has_content in
    let calls3 :=
      if transcript_ready_callback a then [CallTranscriptReady result] else [] in
    (Some result,
     mk (auto_clipboard a) (current_session a) final_id (transcription_segments a)
        (segment_order a) false (recent_segment_texts a)
        (empty_segment_threshold a) (empty_segment_min_chars a)
        (session_start_time a) (processing_stats a) (transcript_ready_callback a),
     calls1 ++ calls2 ++ calls3).

(** [_calculate_completion_timeout]. The sum and the maximum run over
    the values of the dict; their order does not change the result up to
    equality of rationals. *)
Definition _calculate_completion_timeout (a : t) : Q :=
  let durations :=
    map (fun kv => duration (segment_info (snd kv)))
        (map_to_list (transcription_segments a)) in
  match durations with
  | [] => 10%Q
  | _ =>
      let total_duration := fold_left Qplus durations 0%Q in
      let max_duration := np_max durations in
      let base_timeout := 30%Q in
      let duration_timeout := (max_duration * 2)%Q in
      let total_timeout := (total_duration * (3 # 2))%Q in
      py_max (py_max base_timeout duration_timeout) total_timeout
  end.

End QuickTranscriptAssembler.

(** ** [settings.py] and [transcribe.py]: the streaming configuration *)

(** The test [advanced_performance_settings] applies to the three segment
    durations before it stores them. *)
Definition segment_durations_accepted (min_dur target_dur max_dur : Z) : bool :=
  (10 <=? min_dur) && (min_dur <=? 60)
  && (30 <=? target_dur) && (target_dur <=? 120)
  && (60 <=? max_dur) && (max_dur <=? 180)
  && (min_dur <=? target_dur) && (target_dur <=? max_dur).

(** The [VolumeConfig] that [record_audio_streaming] builds from the three
    durations; the other fields keep their defaults. *)
Definition streaming_volume_config (min_dur target_dur max_dur : Z) : VolumeConfig :=
  mkVolumeConfig (inject_Z min_dur) (inject_Z target_dur) (inject_Z max_dur)
    (7 # 10) (2 # 100) (1 # 2) 1 5.

(** ** The properties in the specification's words *)

(** All samples written, in order. *)
Definition stream_of (ws : list (list Sample * Q)) : list Sample :=
  concat (map fst ws).

(** The samples of the stream at positions [start, start + len). *)
Definition span_of (stream : list Sample) (start len : Z) : list Sample :=
  take (Z.to_nat len) (drop (Z.to_nat start) stream).

(** Segments that follow one another from time [t0], each of positive
    length and with [duration = end_time - start_time]. *)
Fixpoint contiguous_from (t0 : Q) (segments : list SegmentInfo) : Prop :=
  match segments with
  | [] => True
  | seg :: rest =>
      start_time seg = t0
      /\ (start_time seg < end_time seg)%Q
      /\ duration seg = (end_time seg - start_time seg)%Q
      /\ contiguous_from (end_time seg) rest
  end.

(** The first maximal run of silent windows of [recent], in time order:
    it starts at the first silent window and ends at the next window that
    is not silent, or at [current_time] when there is none. *)
Definition first_silent_run (silent : Q -> bool) (recent : list (Q * Q))
           (current_time run_start run_end : Q) : Prop :=
  exists before run after,
    recent = before ++ run ++ after
    /\ Forall (fun tv => silent (snd tv) = false) before
    /\ Forall (fun tv => silent (snd tv) = true) run
    /\ head (map fst run) = Some run_start
    /\ match after with
       | [] => run_end = current_time
       | tv :: _ => silent (snd tv) = false /\ run_end = fst tv
       end.

(** The baseline samples: the windows of the trailing lookback history
    between the segment start and two seconds before [current_time]. *)
Definition baseline_window (s : VolumeSegmenter.t) (current_time : Q) : list Q :=
  map snd
    (List.filter (fun tv => Qle_bool (VolumeSegmenter.current_segment_start s) (fst tv)
                       && Qle_bool (fst tv) (current_time - 2)%Q)
            (VolumeSegmenter.recent_volumes_of s current_time)).

(** The texts [get_current_transcript] is to join: for each submitted id
    in order, the stripped text of its segment when that segment is
    completed and the text is not empty. *)
Definition completed_texts (a : QuickTranscriptAssembler.t) : list string :=
  omap (fun segment_id =>
          seg ← QuickTranscriptAssembler.transcription_segments a !! segment_id;
          if Status_eqb (status seg) completed
             && str_truthy (strip (transcription seg))
          then Some (strip (transcription seg)) else None)
       (QuickTranscriptAssembler.segment_order a).

(** The ids the [Submit] events of a run append, in order. *)
Definition submitted_ids (events : list QuickTranscriptAssembler.event) : list string :=
  omap (fun e =>
          match e with
          | QuickTranscriptAssembler.Submit info _ =>
              Some (QuickTranscriptAssembler.segment_id_of info)
          | _ => None
          end) events.

(** Segments that follow one another from [t0] whatever their length:
    each starts where the one before ends, the first at [t0], and has
    [duration = end_time - start_time]. *)
Fixpoint linked_from (t0 : Q) (segments : list SegmentInfo) : Prop :=
  match segments with
  | [] => True
  | seg :: rest =>
      start_time seg = t0
      /\ duration seg = (end_time seg - start_time seg)%Q
      /\ linked_from (end_time seg) rest
  end.

(** The last [n] elements of a list. *)
Definition last_n {A : Type} (n : nat) (l : list A) : list A :=
  drop (length l - n)%nat l.

(** The texts the [UpdateCounter] events of a run hand over, in order. *)
Definition counted_texts (events : list QuickTranscriptAssembler.event) : list string :=
  omap (fun e =>
          match e with
          | QuickTranscriptAssembler.UpdateCounter text => Some (strip text)
          | _ => None
          end) events.

(** The auto-stop rule read literally: enough texts, and fewer characters
    in their concatenation than the minimum. *)
Definition concatenation_below_minimum (a : QuickTranscriptAssembler.t) : bool :=
  (QuickTranscriptAssembler.empty_segment_threshold a
     <=? Z.of_nat (length (QuickTranscriptAssembler.recent_segment_texts a)))
  && (Z.of_nat (String.length
                  (String.concat EmptyString
                     (QuickTranscriptAssembler.recent_segment_texts a)))
        <? QuickTranscriptAssembler.empty_segment_min_chars a).

Definition is_complete (e : QuickTranscriptAssembler.event) : bool :=
  match e with
  | QuickTranscriptAssembler.Complete _ _ _ => true
  | _ => false
  end.

Definition no_completed_segment (a : QuickTranscriptAssembler.t) : Prop :=
  forall segment_id seg,
    QuickTranscriptAssembler.transcription_segments a !! segment_id = Some seg ->
    status seg <> completed.

Definition is_external (c : QuickTranscriptAssembler.call) : bool :=
  match c with
  | QuickTranscriptAssembler.CallPersist _
  | QuickTranscriptAssembler.CallClipboard _ => true
  | QuickTranscriptAssembler.CallTranscriptReady _ => false
  end.

(** ** Invariants used in the proofs *)

(** The position in the written data that lands on slot [i] of a ring of
    [n] slots, for [m] samples written from slot [p] on. *)
Definition landed (n p m i : nat) : option nat :=
  let j := if (p <=? i)%nat then (i - p)%nat else (i + n - p)%nat in
  if (j <? m)%nat then Some j else None.

(** The state of a recording buffer after the samples [stream] have been
    written: the samples of the last [buffer_size] positions are in their
    slots. *)
Record ring_holds (b : CircularAudioBuffer.t) (stream : list Sample) : Prop := {
  ring_size : 0 < CircularAudioBuffer.buffer_size b;
  ring_length :
    Z.of_nat (length (CircularAudioBuffer.buffer b)) = CircularAudioBuffer.buffer_size b;
  ring_total :
    CircularAudioBuffer.total_samples_written b = Z.of_nat (length stream);
  ring_position :
    CircularAudioBuffer.write_position b
    = CircularAudioBuffer.total_samples_written b mod CircularAudioBuffer.buffer_size b;
  ring_recording : CircularAudioBuffer.is_recording b = true;
  ring_started : time_truthy (CircularAudioBuffer.start_time b) = true;
  ring_slots : forall k : Z,
      0 <= k ->
      CircularAudioBuffer.total_samples_written b - CircularAudioBuffer.buffer_size b <= k
      < CircularAudioBuffer.total_samples_written b ->
      CircularAudioBuffer.buffer b !! Z.to_nat (k mod CircularAudioBuffer.buffer_size b)
      = stream !! Z.to_nat k
}.

(** What the analysis loop leaves alone. *)
Definition same_segments (s s' : VolumeSegmenter.t) : Prop :=
  VolumeSegmenter.config s' = VolumeSegmenter.config s
  /\ VolumeSegmenter.current_segment_start s' = VolumeSegmenter.current_segment_start s
  /\ VolumeSegmenter.last_analysis_time s' = VolumeSegmenter.last_analysis_time s
  /\ VolumeSegmenter.detected_segments s' = VolumeSegmenter.detected_segments s
  /\ VolumeSegmenter.is_analyzing s' = VolumeSegmenter.is_analyzing s.

(** Segments that follow one another from [t0] and end at [t1]. *)
Fixpoint chain (t0 : Q) (segments : list SegmentInfo) (t1 : Q) : Prop :=
  match segments with
  | [] => t1 = t0
  | seg :: rest =>
      start_time seg = t0
      /\ (start_time seg < end_time seg)%Q
      /\ duration seg = (end_time seg - start_time seg)%Q
      /\ chain (end_time seg) rest t1
  end.

(** Segments linked from [t0] on, the last of which ends at [t1]. *)
Fixpoint linked (t0 : Q) (segments : list SegmentInfo) (t1 : Q) : Prop :=
  match segments with
  | [] => t1 = t0
  | seg :: rest =>
      start_time seg = t0
      /\ duration seg = (end_time seg - start_time seg)%Q
      /\ linked (end_time seg) rest t1
  end.

(** The configurations under which no segment is empty. *)
Definition positive_segments (cfg : VolumeConfig) : Prop :=
  (0 < max_segment_duration cfg)%Q
  /\ (0 < target_segment_duration cfg)%Q
  /\ (lookback_window cfg < target_segment_duration cfg)%Q.

(** The buffer handed to a call is well formed. *)
Definition op_well_formed (o : VolumeSegmenter.op) : Prop :=
  match o with
  | VolumeSegmenter.Analyze b _ | VolumeSegmenter.Flush b _ =>
      CircularAudioBuffer.well_formed b
  | VolumeSegmenter.Stop => True
  end.

(** ** Further invariants *)

(** The volume history lies in the two lookback windows that end at the
    last analysis time. *)
Definition history_in_window (s : VolumeSegmenter.t) : Prop :=
  Forall (fun tv =>
            (VolumeSegmenter.last_analysis_time s
             - lookback_window (VolumeSegmenter.config s) * 2 <= fst tv)%Q
            /\ (fst tv < VolumeSegmenter.last_analysis_time s)%Q)
         (VolumeSegmenter.volume_history s).

(** The least duration of a segment, by the reason of its boundary. *)
Definition duration_bound (cfg : VolumeConfig) (seg : SegmentInfo) : Prop :=
  (reason seg = "max_length" /\ (max_segment_duration cfg <= duration seg)%Q)
  \/ (reason seg = "natural_pause"
      /\ (target_segment_duration cfg - lookback_window cfg <= duration seg)%Q)
  \/ (reason seg = "final_flush" /\ (5 <= duration seg)%Q).

(** ** Concrete runs *)

(** A square root that is exact on squares of rationals. *)
Definition sqrt_exact (q : Q) : Q :=
  let r := Qred q in Z.sqrt (Qnum r) # Pos.sqrt (Qden r).

Definition py_get {A : Type} (d : A) (m : py A) : A :=
  match m with Ret a => a | Raise _ => d end.

Module Demo.

(** A 30 s buffer at 2 samples per second, one channel. *)
Definition fresh : CircularAudioBuffer.t :=
  CircularAudioBuffer.mk 30 2 1 60 (replicate 60 0%Q) 0 0 None false 1000.

(** Recording has started at clock 1000; nothing is written yet. *)
Definition started : CircularAudioBuffer.t :=
  CircularAudioBuffer.start_recording fresh 1000.

Definition loud : list Sample := [1 # 2; 1 # 2]%Q.
Definition quiet : list Sample := [0; 0]%Q.

(** 4.5 s of audio: two loud seconds, a silent one, then loud again. *)
Definition writes1 : list (list Sample * Q) :=
  [(loud, 1001); (loud, 1002); (quiet, 1003); (loud, 1004); ([1 # 2], 1004.5)]%Q.

Definition after1 : CircularAudioBuffer.t :=
  py_get started (CircularAudioBuffer.writes started writes1).

(** 2.5 more seconds, all loud: 7 s in total. *)
Definition writes2 : list (list Sample * Q) :=
  [([1 # 2], 1005); (loud, 1006); (loud, 1007)]%Q.

Definition after2 : CircularAudioBuffer.t :=
  py_get started (CircularAudioBuffer.writes after1 writes2).

(** Segment durations of 2 s, 4 s and 90 s; the other fields are the
    defaults, so the lookback window (5 s) is longer than the target. *)
Definition short_config : VolumeConfig :=
  mkVolumeConfig 2 4 90 (7 # 10) (2 # 100) (1 # 2) 1 5.

Definition segmenter : VolumeSegmenter.t :=
  VolumeSegmenter.start_analysis (VolumeSegmenter.init short_config).

(** A 2 s buffer at 2 samples per second: four slots. Six samples are
    written in two calls, so the last three lie across the end of the
    buffer. *)
Definition small : CircularAudioBuffer.t :=
  CircularAudioBuffer.mk 2 2 1 4 (replicate 4 0%Q) 0 0 None false 1000.

Definition wrap_writes : list (list Sample * Q) :=
  [([1; 2; 3], 1001.5); ([4; 5; 6], 1003)]%Q.

(** Two seconds of audio, a loud second and a silent one, and a
    configuration whose target is 2 s. *)
Definition two_seconds : CircularAudioBuffer.t :=
  py_get started (CircularAudioBuffer.writes started [(loud, 1001); (quiet, 1002)]%Q).

Definition quick_config : VolumeConfig :=
  mkVolumeConfig 1 2 90 (7 # 10) (2 # 100) (1 # 2) 1 5.

Definition quick_segmenter : VolumeSegmenter.t :=
  VolumeSegmenter.start_analysis (VolumeSegmenter.init quick_config).

(** Ten seconds of loud audio under the default configuration. *)
Definition ten_seconds : CircularAudioBuffer.t :=
  py_get started
    (CircularAudioBuffer.writes started [(concat (replicate 10 loud), 1010%Q)]).

Definition default_segmenter : VolumeSegmenter.t :=
  VolumeSegmenter.start_analysis (VolumeSegmenter.init default_config).

Definition info (start_time end_time : Q) : SegmentInfo :=
  mkSegmentInfo start_time end_time (end_time - start_time) "max_length" 0 0 0.

(** A session with the default thresholds (3 texts, 10 characters). *)
Definition session : QuickTranscriptAssembler.t :=
  QuickTranscriptAssembler.start_session
    (QuickTranscriptAssembler.init true 3 10) "stream_1000" 1000.

(** Two segments are submitted; the second completes first. *)
Definition out_of_order : list QuickTranscriptAssembler.event :=
  [QuickTranscriptAssembler.Submit (info 0 90) 1090;
   QuickTranscriptAssembler.Submit (info 90 180) 1180;
   QuickTranscriptAssembler.Begin "seg_0.0_90.0";
   QuickTranscriptAssembler.Begin "seg_90.0_180.0";
   QuickTranscriptAssembler.Complete "seg_90.0_180.0" " second text " 3;
   QuickTranscriptAssembler.UpdateCounter " second text ";
   QuickTranscriptAssembler.Complete "seg_0.0_90.0" "first" 9;
   QuickTranscriptAssembler.UpdateCounter "first"].

(** Three short texts arrive: nine characters in all. *)
Definition three_short : list QuickTranscriptAssembler.event :=
  [QuickTranscriptAssembler.UpdateCounter "abc";
   QuickTranscriptAssembler.UpdateCounter "def";
   QuickTranscriptAssembler.UpdateCounter "ghi"].

(** Two segments are submitted and neither is ever transcribed. *)
Definition never_completed : list QuickTranscriptAssembler.event :=
  [QuickTranscriptAssembler.Submit (info 0 90) 1090;
   QuickTranscriptAssembler.Submit (info 90 180) 1180;
   QuickTranscriptAssembler.Begin "seg_0.0_90.0";
   QuickTranscriptAssembler.Failed "seg_0.0_90.0" "out of memory"].

Definition world : QuickTranscriptAssembler.world :=
  QuickTranscriptAssembler.mkWorld
    (fun _ => Some ("streaming_transcript.md", "000001")) (fun _ => true).

End Demo.

(** * Properties *)

Section RingBufferProofs.
(** ** Ring buffer: unavailable spans and the recording duration *)

Import CircularAudioBuffer.

(** C2. A span that starts before [total_samples_written - buffer_size] or
    ends after [total_samples_written] is answered with the unavailable
    result [None], in every buffer state; no exception is raised. *)
Theorem read_segment_out_of_range_is_unavailable
        (b : CircularAudioBuffer.t) (start_time_offset duration : Q) :
  let start_sample := start_sample_of b start_time_offset in
  let end_sample := start_sample + duration_samples_of b duration in
  start_sample < total_samples_written b - buffer_size b
  \/ total_samples_written b < end_sample ->
  read_segment b start_time_offset duration = Ret None.
Proof.
  intros start_sample end_sample Hout. unfold read_segment.
  destruct (time_truthy (CircularAudioBuffer.start_time b)); simpl; [|reflexivity].
  fold start_sample. destruct (Z.ltb_spec start_sample (total_samples_written b - buffer_size b))
    as [|Hretained]; [reflexivity|].
  fold end_sample.
  destruct (Z.ltb_spec (total_samples_written b) end_sample); [reflexivity|lia].
Qed.

Lemma read_segment_out_of_range_witness :
  read_segment Demo.after1 100 1 = Ret None
  /\ read_segment Demo.after1 4 1 = Ret None.
Proof.
  split.
  - apply (read_segment_out_of_range_is_unavailable Demo.after1 100 1).
    right. vm_compute. reflexivity.
  - apply (read_segment_out_of_range_is_unavailable Demo.after1 4 1).
    right. vm_compute. reflexivity.
Defined.

(** C9, as the code has it. With a non-zero rate: once a sample has been
    written the duration is [total_samples_written / (sample_rate * channels)]
    whatever the clock says; with nothing written and no recording under
    way it is 0; with nothing written while recording it is the wall-clock
    time since [start_recording]. *)
Theorem get_recording_duration_cases (b : CircularAudioBuffer.t) (now : Q) :
  sample_rate b * channels b <> 0 ->
  (total_samples_written b <> 0 ->
   get_recording_duration b now
   = Ret (inject_Z (total_samples_written b)
          / inject_Z (sample_rate b * channels b))%Q)
  /\ (total_samples_written b = 0 ->
      is_recording b = false \/ time_truthy (CircularAudioBuffer.start_time b) = false ->
      get_recording_duration b now = Ret 0%Q)
  /\ (forall started_at,
         total_samples_written b = 0 -> is_recording b = true ->
         CircularAudioBuffer.start_time b = Some started_at -> ~ (started_at == 0)%Q ->
         get_recording_duration b now = Ret (now - started_at)%Q).
Proof.
  intros Hrate. unfold get_recording_duration, py_truediv. repeat split.
  - intros Htotal. apply Z.eqb_neq in Htotal, Hrate. now rewrite Htotal, Hrate.
  - intros -> [-> | ->]; simpl; [reflexivity|].
    now rewrite andb_false_r.
  - intros started_at -> -> -> Hne. simpl.
    destruct (Qeq_bool started_at 0) eqn:E; [|reflexivity].
    apply Qeq_bool_iff in E. contradiction.
Qed.

Lemma get_recording_duration_cases_witness :
  get_recording_duration Demo.after1 1005 = Ret (inject_Z 9 / inject_Z (2 * 1))%Q.
Proof.
  apply (get_recording_duration_cases Demo.after1 1005); vm_compute; discriminate.
Defined.

(** C9, counterexample. Recording started at clock 1000 and no sample
    written: three seconds later the duration is 3, the wall-clock time,
    and not [0 / (2 * 1)], the audio time. *)
Lemma get_recording_duration_wall_clock :
  get_recording_duration Demo.started 1003 = Ret 3%Q
  /\ ~ (3 == inject_Z (total_samples_written Demo.started)
             / inject_Z (sample_rate Demo.started * channels Demo.started))%Q.
Proof.
  split; [reflexivity|]. vm_compute. discriminate.
Qed.

(** ** Ring buffer: what a write stores *)

Section SliceLemmas.
Context {A : Type}.
Implicit Types l data : list A.

Lemma norm_index_in_range (n : nat) (i : Z) :
  0 <= i <= Z.of_nat n -> norm_index n i = Z.to_nat i.
Proof.
  intros Hi. unfold norm_index.
  destruct (Z.ltb_spec i 0); [lia|]. f_equal. lia.
Qed.

Lemma set_slice_exact l data (lo hi : Z) :
  0 <= lo <= hi -> hi <= Z.of_nat (length l) ->
  Z.of_nat (length data) = hi - lo ->
  set_slice l lo hi data
  = Ret (take (Z.to_nat lo) l ++ data ++ drop (Z.to_nat hi) l).
Proof.
  intros Hlo Hhi Hlen. unfold set_slice.
  rewrite !norm_index_in_range by lia.
  replace (Z.to_nat hi - Z.to_nat lo)%nat with (length data) by lia.
  rewrite Nat.eqb_refl.
  replace (Z.to_nat lo + length data)%nat with (Z.to_nat hi) by lia. reflexivity.
Qed.

(** The data fits before the end of the array. *)
Lemma lookup_write_fits l data (p i : nat) :
  (p + length data <= length l)%nat ->
  (take p l ++ data ++ drop (p + length data) l) !! i
  = if (p <=? i)%nat && (i <? p + length data)%nat
    then data !! (i - p)%nat else l !! i.
Proof.
  intros Hfit.
  destruct (Nat.leb_spec p i) as [Hpi|Hpi]; simpl.
  - rewrite lookup_app_r; rewrite length_take; [|lia].
    replace (p `min` length l)%nat with p by lia.
    destruct (Nat.ltb_spec i (p + length data)) as [Hi|Hi].
    + rewrite lookup_app_l by lia. reflexivity.
    + rewrite lookup_app_r by lia. rewrite lookup_drop. f_equal. lia.
  - rewrite lookup_app_l; [|rewrite length_take; lia].
    rewrite lookup_take_lt by lia. reflexivity.
Qed.

(** The data wraps around the end of the array. *)
Lemma lookup_write_wraps l data (p i : nat) :
  (p < length l)%nat -> (length data <= length l)%nat ->
  (length l < p + length data)%nat -> (i < length l)%nat ->
  let first := (length l - p)%nat in
  let second := (length data - first)%nat in
  (drop first data ++ drop second (take p l ++ take first data)) !! i
  = if (i <? second)%nat then data !! (first + i)%nat
    else if (i <? p)%nat then l !! i else data !! (i - p)%nat.
Proof.
  intros Hp Hdata Hwrap Hi first second.
  assert (Hdrop : length (drop first data) = second) by (rewrite length_drop; lia).
  destruct (Nat.ltb_spec i second) as [Hi2|Hi2].
  - rewrite lookup_app_l by lia. rewrite lookup_drop. reflexivity.
  - rewrite lookup_app_r by lia. rewrite Hdrop, lookup_drop.
    replace (second + (i - second))%nat with i by lia.
    destruct (Nat.ltb_spec i p) as [Hip|Hip].
    + rewrite lookup_app_l; [|rewrite length_take; lia].
      rewrite lookup_take_lt by lia. reflexivity.
    + rewrite lookup_app_r; rewrite length_take; [|lia].
      replace (p `min` length l)%nat with p by lia.
      rewrite lookup_take_lt by (unfold first; lia). reflexivity.
Qed.
End SliceLemmas.

Lemma write_stores (b : CircularAudioBuffer.t) (audio_data : list Sample) (now : Q) :
  is_recording b = true ->
  0 < buffer_size b ->
  Z.of_nat (length (buffer b)) = buffer_size b ->
  0 <= write_position b < buffer_size b ->
  Z.of_nat (length audio_data) <= buffer_size b ->
  exists buffer',
    write b audio_data now
    = Ret (mk (capacity_seconds b) (sample_rate b) (channels b) (buffer_size b)
              buffer'
              ((write_position b + Z.of_nat (length audio_data)) mod buffer_size b)
              (total_samples_written b + Z.of_nat (length audio_data))
              (CircularAudioBuffer.start_time b) true now)
    /\ length buffer' = length (buffer b)
    /\ forall i, (i < length (buffer b))%nat ->
         buffer' !! i
         = match landed (length (buffer b)) (Z.to_nat (write_position b))
                        (length audio_data) i with
           | Some j => audio_data !! j
           | None => buffer b !! i
           end.
Proof.
  intros Hrec Hsize Hlen Hpos Hdata. unfold write. rewrite Hrec. simpl.
  set (n := length (buffer b)) in *. set (p := Z.to_nat (write_position b)).
  set (m := length audio_data) in *.
  assert (Hmod : py_mod (write_position b + Z.of_nat m) (buffer_size b)
                 = Ret ((write_position b + Z.of_nat m) mod buffer_size b)).
  { unfold py_mod. destruct (Z.eqb_spec (buffer_size b) 0); [lia|reflexivity]. }
  destruct (Z.leb_spec (write_position b + Z.of_nat m) (buffer_size b)) as [Hfit|Hwrap].
  - rewrite set_slice_exact by lia. simpl. rewrite Hmod. simpl.
    eexists. split; [reflexivity|]. split.
    { rewrite !length_app, length_take, length_drop. fold n m. lia. }
    intros i Hi. replace (Z.to_nat (write_position b + Z.of_nat m)) with (p + m)%nat by lia.
    fold p. unfold m. rewrite lookup_write_fits by (fold n m; lia). fold m.
    unfold landed. destruct (Nat.leb_spec p i) as [Hpi|Hpi]; simpl.
    + destruct (Nat.ltb_spec i (p + m)), (Nat.ltb_spec (i - p) m); try lia; reflexivity.
    + destruct (Nat.ltb_spec (i + n - p) m); [lia|reflexivity].
  - unfold set_slice_from, set_slice_to, slice_to, slice_from.
    rewrite !norm_index_in_range by lia.
    rewrite set_slice_exact; [|lia|lia|rewrite length_take; lia].
    simpl. rewrite set_slice_exact;
      [|lia|rewrite !length_app, length_take, length_take, length_drop; lia
       |rewrite length_drop; lia].
    simpl. rewrite Hmod. simpl.
    replace (Z.to_nat (Z.of_nat (length (buffer b)))) with n by (unfold n; lia).
    rewrite (drop_ge (buffer b) n) by (unfold n; lia). rewrite app_nil_r.
    replace (Z.to_nat (buffer_size b - write_position b)) with (n - p)%nat by lia.
    replace (Z.to_nat (Z.of_nat m - (buffer_size b - write_position b)))
      with (m - (n - p))%nat by lia.
    fold p. eexists. split; [reflexivity|]. split.
    { rewrite !length_app, !length_drop, length_app, !length_take. fold n m. lia. }
    intros i Hi.
    pose proof (lookup_write_wraps (buffer b) audio_data p i) as Hlook.
    fold n m in Hlook. cbv zeta in Hlook. rewrite Hlook by lia. clear Hlook.
    unfold landed. destruct (Nat.ltb_spec i (m - (n - p))) as [Hi2|Hi2].
    + destruct (Nat.leb_spec p i) as [Hpi|Hpi]; [lia|].
      destruct (Nat.ltb_spec (i + n - p) m); [|lia]. f_equal. lia.
    + destruct (Nat.ltb_spec i p) as [Hip|Hip].
      * destruct (Nat.leb_spec p i) as [Hpi|Hpi]; [lia|].
        destruct (Nat.ltb_spec (i + n - p) m); [lia|reflexivity].
      * destruct (Nat.leb_spec p i) as [Hpi|Hpi]; [|lia].
        destruct (Nat.ltb_spec (i - p) m); [reflexivity|lia].
Qed.

(** ** Ring buffer: the retained window *)

Lemma mod_of (a n q r : Z) : 0 <= r < n -> a = n * q + r -> a mod n = r.
Proof. intros Hr Ha. symmetry. apply (Z.mod_unique a n q r); [left; exact Hr|exact Ha]. Qed.

Lemma start_recording_holds (b : CircularAudioBuffer.t) (now : Q) :
  0 < buffer_size b -> Z.of_nat (length (buffer b)) = buffer_size b ->
  ~ (now == 0)%Q ->
  ring_holds (start_recording b now) [].
Proof.
  intros Hsize Hlen Hnow. constructor; simpl; try easy.
  - destruct (Qeq_bool now 0) eqn:E; [|reflexivity].
    apply Qeq_bool_iff in E. contradiction.
  - intros k Hk Hrange. lia.
Qed.

Lemma write_holds (b : CircularAudioBuffer.t) (stream audio_data : list Sample) (now : Q) :
  ring_holds b stream ->
  Z.of_nat (length audio_data) <= buffer_size b ->
  exists b',
    write b audio_data now = Ret b'
    /\ ring_holds b' (stream ++ audio_data)
    /\ buffer_size b' = buffer_size b
    /\ sample_rate b' = sample_rate b /\ channels b' = channels b.
Proof.
  intros [Hsize Hlen Htotal Hpos Hrec Hstart Hslots] Hdata.
  assert (Hp : 0 <= write_position b < buffer_size b).
  { rewrite Hpos. apply Z.mod_pos_bound. lia. }
  destruct (write_stores b audio_data now Hrec Hsize Hlen Hp Hdata)
    as (buffer' & Hwrite & Hlen' & Hlook).
  eexists. split; [exact Hwrite|]. split; [|now repeat split].
  set (n := buffer_size b) in *. set (total := total_samples_written b) in *.
  set (m := length audio_data) in *.
  pose proof (Z.div_mod total n ltac:(lia)) as Hdiv.
  rewrite <- Hpos in Hdiv. set (q := total / n) in *.
  constructor; simpl; try assumption; try reflexivity.
  - lia.
  - rewrite length_app. lia.
  - rewrite Hpos. apply Z.add_mod_idemp_l. lia.
  - intros k Hk Hrange. fold n total in Hrange |- *.
    assert (Hi : (Z.to_nat (k mod n) < length (buffer b))%nat).
    { pose proof (Z.mod_pos_bound k n ltac:(lia)). lia. }
    rewrite (Hlook _ Hi). unfold landed.
    destruct (Z.lt_ge_cases k total) as [Hold|Hnew].
    + (* a sample of an earlier write, not overwritten *)
      rewrite lookup_app_l by lia.
      assert (Hk' : k mod n = if write_position b - (total - k) <? 0
                              then write_position b - (total - k) + n
                              else write_position b - (total - k)).
      { destruct (Z.ltb_spec (write_position b - (total - k)) 0).
        - apply (mod_of k n (q - 1)); lia.
        - apply (mod_of k n q); lia. }
      rewrite <- (Hslots k Hk) by lia. fold n.
      destruct (Z.ltb_spec (write_position b - (total - k)) 0);
        destruct (Nat.leb_spec (Z.to_nat (write_position b)) (Z.to_nat (k mod n)));
        try lia.
      * destruct (Nat.ltb_spec (Z.to_nat (k mod n) - Z.to_nat (write_position b)) m);
          [lia|reflexivity].
      * destruct (Nat.ltb_spec (Z.to_nat (k mod n) + length (buffer b)
                                - Z.to_nat (write_position b)) m);
          [lia|reflexivity].
    + (* a sample of this write *)
      rewrite lookup_app_r by lia.
      assert (Hk' : k mod n = if write_position b + (k - total) <? n
                              then write_position b + (k - total)
                              else write_position b + (k - total) - n).
      { destruct (Z.ltb_spec (write_position b + (k - total)) n).
        - apply (mod_of k n q); lia.
        - apply (mod_of k n (q + 1)); lia. }
      destruct (Z.ltb_spec (write_position b + (k - total)) n);
        destruct (Nat.leb_spec (Z.to_nat (write_position b)) (Z.to_nat (k mod n)));
        try lia.
      * destruct (Nat.ltb_spec (Z.to_nat (k mod n) - Z.to_nat (write_position b)) m);
          [|lia]. f_equal. lia.
      * destruct (Nat.ltb_spec (Z.to_nat (k mod n) + length (buffer b)
                                - Z.to_nat (write_position b)) m);
          [|lia]. f_equal. lia.
Qed.

Lemma writes_hold (ws : list (list Sample * Q)) :
  forall (b : CircularAudioBuffer.t) (stream : list Sample),
    ring_holds b stream ->
    Forall (fun w => Z.of_nat (length (fst w)) <= buffer_size b) ws ->
    exists b',
      writes b ws = Ret b'
      /\ ring_holds b' (stream ++ stream_of ws)
      /\ buffer_size b' = buffer_size b
      /\ sample_rate b' = sample_rate b /\ channels b' = channels b.
Proof.
  induction ws as [|[audio_data now] ws IH]; intros b stream Hb Hws.
  { exists b. unfold stream_of. simpl. rewrite app_nil_r.
    split; [reflexivity|]. split; [exact Hb|]. now repeat split. }
  inversion Hws as [|? ? Hw Hrest]; subst. simpl in Hw.
  destruct (write_holds b stream audio_data now Hb Hw)
    as (b1 & Hwrite & Hb1 & Hsize & Hrate & Hch).
  destruct (IH b1 (stream ++ audio_data) Hb1) as (b' & Hwrites & Hb' & Hsize' & Hrate' & Hch').
  { now rewrite Hsize. }
  exists b'. simpl. rewrite Hwrite. simpl. split; [exact Hwrites|].
  unfold stream_of in *. simpl. rewrite app_assoc.
  split; [exact Hb'|]. repeat split; congruence.
Qed.

(** What [read_segment] returns for a span of at least one sample inside
    the retained window. *)
Lemma read_segment_holds (b : CircularAudioBuffer.t) (stream : list Sample)
      (start_time_offset duration : Q) :
  ring_holds b stream ->
  let start_sample := start_sample_of b start_time_offset in
  let duration_samples := duration_samples_of b duration in
  0 <= start_sample -> 0 < duration_samples ->
  total_samples_written b - buffer_size b <= start_sample ->
  start_sample + duration_samples <= total_samples_written b ->
  read_segment b start_time_offset duration
  = Ret (Some (span_of stream start_sample duration_samples)).
Proof.
  intros [Hsize Hlen Htotal Hpos Hrec Hstart Hslots] s d Hs Hd Hretained Hend.
  unfold read_segment. rewrite Hstart. simpl. fold s d.
  destruct (Z.ltb_spec s (total_samples_written b - buffer_size b)); [lia|].
  destruct (Z.ltb_spec (total_samples_written b) (s + d)); [lia|].
  unfold py_mod. destruct (Z.eqb_spec (buffer_size b) 0) as [|Hne]; [lia|]. simpl.
  set (n := buffer_size b) in *.
  pose proof (Z.mod_pos_bound s n ltac:(lia)) as Hbs.
  pose proof (Z.mod_pos_bound (s + d) n ltac:(lia)) as Hbe.
  pose proof (Z.div_mod s n ltac:(lia)) as Hdiv. set (q := s / n) in *.
  assert (Hbe' : (s + d) mod n = if s mod n + d <? n then s mod n + d
                                 else s mod n + d - n).
  { destruct (Z.ltb_spec (s mod n + d) n).
    - apply (mod_of (s + d) n q); lia.
    - apply (mod_of (s + d) n (q + 1)); lia. }
  assert (Hslot : forall i : nat,
             (i < Z.to_nat d)%nat ->
             stream !! (Z.to_nat s + i)%nat
             = buffer b !! Z.to_nat (if s mod n + Z.of_nat i <? n
                                     then s mod n + Z.of_nat i
                                     else s mod n + Z.of_nat i - n)).
  { intros i Hi. replace (Z.to_nat s + i)%nat with (Z.to_nat (s + Z.of_nat i)) by lia.
    rewrite <- Hslots by lia. do 2 f_equal. fold n.
    destruct (Z.ltb_spec (s mod n + Z.of_nat i) n).
    - apply (mod_of _ n q); lia.
    - apply (mod_of _ n (q + 1)); lia. }
  match goal with
  | |- (if ?c then Ret (Some ?x) else Ret (Some ?y)) = _ =>
      replace (if c then Ret (Some x) else Ret (Some y))
        with (Ret (Some (if c then x else y))) by now destruct c
  end.
  do 2 f_equal. unfold span_of. apply list_eq. intros i.
  destruct (Nat.lt_ge_cases i (Z.to_nat d)) as [Hi|Hi].
  2:{ rewrite (lookup_take_ge _ (Z.to_nat d)) by lia.
      apply lookup_ge_None.
      destruct (Z.ltb_spec (s mod n) ((s + d) mod n)).
      - unfold slice. rewrite length_take, length_drop.
        rewrite !norm_index_in_range by lia.
        destruct (Z.ltb_spec (s mod n + d) n); lia.
      - unfold slice_from, slice_to. rewrite length_app, length_drop, length_take.
        rewrite !norm_index_in_range by lia.
        destruct (Z.ltb_spec (s mod n + d) n); lia. }
  rewrite lookup_take_lt by exact Hi. rewrite lookup_drop, (Hslot i Hi).
  destruct (Z.ltb_spec (s mod n) ((s + d) mod n)) as [Hflat|Hwrap].
  - unfold slice. rewrite !norm_index_in_range by lia.
    destruct (Z.ltb_spec (s mod n + d) n); [|lia].
    rewrite lookup_take_lt by lia. rewrite lookup_drop.
    destruct (Z.ltb_spec (s mod n + Z.of_nat i) n); [|lia]. f_equal. lia.
  - unfold slice_from, slice_to. rewrite !norm_index_in_range by lia.
    destruct (Z.ltb_spec (s mod n + d) n); [lia|].
    destruct (Z.ltb_spec (s mod n + Z.of_nat i) n).
    + rewrite lookup_app_l by (rewrite length_drop; lia).
      rewrite lookup_drop. f_equal. lia.
    + rewrite lookup_app_r by (rewrite length_drop; lia).
      rewrite length_drop, lookup_take_lt by lia. f_equal. lia.
Qed.

(** X1, round trip. After [start_recording] and any sequence of writes, each
    no longer than the buffer, [read_segment] of a span of at least one
    sample that lies inside the written stream and inside the last
    [buffer_size] samples returns exactly the samples written at those
    positions, whether or not their slots wrap around the end of the
    buffer. *)
Theorem read_segment_round_trip (b0 : CircularAudioBuffer.t) (started_at : Q)
        (ws : list (list Sample * Q)) (start_time_offset duration : Q) :
  0 < buffer_size b0 ->
  Z.of_nat (length (buffer b0)) = buffer_size b0 ->
  ~ (started_at == 0)%Q ->
  Forall (fun w => Z.of_nat (length (fst w)) <= buffer_size b0) ws ->
  exists b,
    writes (start_recording b0 started_at) ws = Ret b
    /\ total_samples_written b = Z.of_nat (length (stream_of ws))
    /\ let start_sample := start_sample_of b start_time_offset in
       let duration_samples := duration_samples_of b duration in
       (0 <= start_sample -> 0 < duration_samples ->
        total_samples_written b - buffer_size b <= start_sample ->
        start_sample + duration_samples <= total_samples_written b ->
        read_segment b start_time_offset duration
        = Ret (Some (span_of (stream_of ws) start_sample duration_samples))).
Proof.
  intros Hsize Hlen Hclock Hws.
  destruct (writes_hold ws (start_recording b0 started_at) [])
    as (b & Hwrites & Hb & _); [now apply start_recording_holds|exact Hws|].
  exists b. split; [exact Hwrites|]. split; [apply (ring_total _ _ Hb)|].
  intros s d Hs Hd Hretained Hend. now apply read_segment_holds.
Qed.

Lemma read_segment_round_trip_witness :
  exists b,
    writes (start_recording Demo.small 1000) Demo.wrap_writes = Ret b
    /\ read_segment b (3 # 2) (3 # 2) = Ret (Some [4; 5; 6]%Q).
Proof.
  destruct (read_segment_round_trip Demo.small 1000 Demo.wrap_writes (3 # 2) (3 # 2))
    as (b & Hwrites & _ & Hread).
  - reflexivity.
  - reflexivity.
  - discriminate.
  - repeat constructor; vm_compute; discriminate.
  - exists b. split; [exact Hwrites|].
    vm_compute in Hwrites. injection Hwrites as <-.
    apply Hread; vm_compute; (reflexivity || discriminate).
Defined.

(** C1, at the failing input. Nine samples are written into a buffer of
    60. A read of no sample (duration 0, or a duration shorter than one
    sample period) finds [buffer_start = buffer_end], takes the branch for
    a span that wraps, and returns all 60 slots of the buffer instead of
    the empty span. *)
Theorem read_segment_of_no_sample_returns_the_buffer :
  writes Demo.started Demo.writes1 = Ret Demo.after1
  /\ total_samples_written Demo.after1 = 9
  /\ span_of (stream_of Demo.writes1)
             (start_sample_of Demo.after1 0) (duration_samples_of Demo.after1 0) = []
  /\ read_segment Demo.after1 0 0 = Ret (Some (buffer Demo.after1))
  /\ length (buffer Demo.after1) = 60%nat
  /\ duration_samples_of Demo.after1 (1 # 4) = 0
  /\ read_segment Demo.after1 1 (1 # 4)
     = Ret (Some (drop 2 (buffer Demo.after1) ++ take 2 (buffer Demo.after1))).
Proof. vm_compute. repeat split. Qed.
End RingBufferProofs.

Section SegmenterProofs.
(** ** Volume segmenter: the analysis loop *)

Lemma Qlt_bool_iff (a b : Q) : Qlt_bool a b = true <-> (a < b)%Q.
Proof.
  unfold Qlt_bool. rewrite negb_true_iff. split.
  - intros H. apply Qnot_le_lt. intros Hle. apply Qle_bool_iff in Hle. congruence.
  - intros H. destruct (Qle_bool b a) eqn:E; [|reflexivity].
    apply Qle_bool_iff in E. exfalso. apply (Qlt_not_le _ _ H E).
Qed.

Lemma Qlt_bool_false_iff (a b : Q) : Qlt_bool a b = false <-> (b <= a)%Q.
Proof.
  unfold Qlt_bool. rewrite negb_false_iff. apply Qle_bool_iff.
Qed.

Lemma Qle_bool_false_iff (a b : Q) : Qle_bool a b = false <-> (b < a)%Q.
Proof.
  rewrite <- Qlt_bool_iff. unfold Qlt_bool. now rewrite negb_true_iff.
Qed.

Lemma available_duration_well_formed (b : CircularAudioBuffer.t) :
  CircularAudioBuffer.well_formed b ->
  exists available, CircularAudioBuffer.get_available_duration b = Ret available.
Proof.
  intros [Hrate _]. unfold CircularAudioBuffer.get_available_duration, py_truediv.
  destruct (Z.eqb_spec (CircularAudioBuffer.sample_rate b * CircularAudioBuffer.channels b) 0);
    [lia|eauto].
Qed.

Lemma recording_duration_well_formed (b : CircularAudioBuffer.t) (now : Q) :
  CircularAudioBuffer.well_formed b ->
  exists current_time, CircularAudioBuffer.get_recording_duration b now = Ret current_time.
Proof.
  intros [Hrate _]. unfold CircularAudioBuffer.get_recording_duration, py_truediv.
  destruct (_ =? 0); [destruct (_ && _); eauto|].
  destruct (Z.eqb_spec (CircularAudioBuffer.sample_rate b * CircularAudioBuffer.channels b) 0);
    [lia|eauto].
Qed.

Lemma read_segment_well_formed (b : CircularAudioBuffer.t) (start_time_offset duration : Q) :
  CircularAudioBuffer.well_formed b ->
  exists r, CircularAudioBuffer.read_segment b start_time_offset duration = Ret r.
Proof.
  intros [_ Hsize]. unfold CircularAudioBuffer.read_segment, py_mod.
  destruct (negb _); [eauto|].
  destruct (_ <? _); [eauto|]. destruct (_ <? _); [eauto|].
  destruct (Z.eqb_spec (CircularAudioBuffer.buffer_size b) 0); [lia|]. simpl.
  destruct (_ <? _); eauto.
Qed.

Lemma same_segments_refl (s : VolumeSegmenter.t) : same_segments s s.
Proof. now repeat split. Qed.

Lemma same_segments_trans (s1 s2 s3 : VolumeSegmenter.t) :
  same_segments s1 s2 -> same_segments s2 s3 -> same_segments s1 s3.
Proof.
  unfold same_segments. intros (?&?&?&?&?) (?&?&?&?&?). repeat split; congruence.
Qed.

Section Loop.
Variable np_sqrt : Q -> Q.
Variable b : CircularAudioBuffer.t.
Variable current_time : Q.
Hypothesis Hwf : CircularAudioBuffer.well_formed b.

(** With a positive window the loop ends: [n] bounds the windows that
    still fit in the available audio. *)
Lemma update_loop_terminates (available : Q) (n : nat) :
  CircularAudioBuffer.get_available_duration b = Ret available ->
  forall (s : VolumeSegmenter.t) (it : BufferSegmentIterator.t),
    (0 < BufferSegmentIterator.window_size it)%Q ->
    (BufferSegmentIterator.step_size it == BufferSegmentIterator.window_size it)%Q ->
    (available - BufferSegmentIterator.current_position it
     < inject_Z (Z.of_nat n) * BufferSegmentIterator.window_size it)%Q ->
    exists s',
      same_segments s s'
      /\ forall fuel, (n < fuel)%nat ->
           VolumeSegmenter.update_loop np_sqrt fuel s b current_time it = Some (Ret s').
Proof.
  intros Havail. induction n as [|n IH]; intros s it Hpos Hstep Hleft.
  - exists s. split; [apply same_segments_refl|].
    intros [|fuel] Hfuel; [lia|]. simpl.
    unfold BufferSegmentIterator.has_next. rewrite Havail. simpl.
    replace (Qle_bool _ _) with false; [reflexivity|].
    symmetry. apply Qle_bool_false_iff.
    change (inject_Z (Z.of_nat 0)) with 0%Q in Hleft. lra.
  - destruct (Qle_bool (BufferSegmentIterator.current_position it
                        + BufferSegmentIterator.window_size it) available) eqn:Hnext.
    2:{ exists s. split; [apply same_segments_refl|].
        intros [|fuel] Hfuel; [lia|]. simpl.
        unfold BufferSegmentIterator.has_next. rewrite Havail. simpl.
        now rewrite Hnext. }
    unfold BufferSegmentIterator.next in *.
    destruct (read_segment_well_formed b (BufferSegmentIterator.current_position it)
                (BufferSegmentIterator.window_size it) Hwf) as [r Hr].
    assert (Hcont : Qlt_bool available
                      (BufferSegmentIterator.current_position it
                       + BufferSegmentIterator.window_size it) = false).
    { apply Qlt_bool_false_iff. now apply Qle_bool_iff. }
    destruct r as [segment|].
    2:{ exists s. split; [apply same_segments_refl|].
        intros [|fuel] Hfuel; [lia|]. simpl.
        unfold BufferSegmentIterator.has_next, BufferSegmentIterator.next.
        rewrite Havail. simpl. rewrite Hnext, Hcont, Hr. reflexivity. }
    destruct (Qle_bool current_time (BufferSegmentIterator.current_position it)) eqn:Hbreak.
    { exists s. split; [apply same_segments_refl|].
      intros [|fuel] Hfuel; [lia|]. simpl.
      unfold BufferSegmentIterator.has_next, BufferSegmentIterator.next.
      rewrite Havail. simpl. rewrite Hnext, Hcont, Hr. simpl. now rewrite Hbreak. }
    set (it' := BufferSegmentIterator.mk (BufferSegmentIterator.window_size it)
                  (BufferSegmentIterator.overlap it) (BufferSegmentIterator.step_size it)
                  (BufferSegmentIterator.current_position it
                   + BufferSegmentIterator.step_size it)%Q).
    set (s1 := VolumeSegmenter.record_window s (BufferSegmentIterator.current_position it)
                 (VolumeSegmenter._calculate_rms np_sqrt segment)).
    destruct (IH s1 it') as (s' & Hsame & Hrun); [exact Hpos|exact Hstep| |].
    { unfold it'. cbn [BufferSegmentIterator.current_position
                         BufferSegmentIterator.window_size].
      rewrite Nat2Z.inj_succ in Hleft. unfold Z.succ in Hleft.
      rewrite inject_Z_plus in Hleft. change (inject_Z 1) with 1%Q in Hleft.
      rewrite Hstep. lra. }
    exists s'. split.
    { eapply same_segments_trans; [|exact Hsame]. now repeat split. }
    intros [|fuel] Hfuel; [lia|]. simpl.
    unfold BufferSegmentIterator.has_next, BufferSegmentIterator.next.
    rewrite Havail. simpl. rewrite Hnext, Hcont, Hr. simpl. rewrite Hbreak.
    apply Hrun. lia.
Qed.

(** Some number of turns is enough for any positive window. *)
Lemma enough_turns (available position window : Q) :
  (0 < window)%Q ->
  exists n : nat, (available - position < inject_Z (Z.of_nat n) * window)%Q.
Proof.
  intros Hw. set (q := ((available - position) / window)%Q).
  exists (Z.to_nat (Qfloor q + 1)).
  assert (Hq : (q < inject_Z (Z.of_nat (Z.to_nat (Qfloor q + 1))))%Q).
  { eapply Qlt_le_trans; [apply Qlt_floor|].
    rewrite <- Zle_Qle. lia. }
  assert (Heq : (q * window == available - position)%Q).
  { unfold q. field. intros H0. rewrite H0 in Hw. now apply Qlt_irrefl in Hw. }
  rewrite <- Heq. now apply Qmult_lt_compat_r.
Qed.

Lemma update_volume_history_terminates (s : VolumeSegmenter.t) :
  (0 < analysis_window (VolumeSegmenter.config s))%Q ->
  exists n s1,
    same_segments s s1
    /\ forall fuel, (n < fuel)%nat ->
         VolumeSegmenter._update_volume_history np_sqrt fuel s b current_time
         = Some (Ret ([], s1)).
Proof.
  intros Hw. destruct (available_duration_well_formed b Hwf) as [available Havail].
  set (it := BufferSegmentIterator.reset_to_position
               (BufferSegmentIterator.init (analysis_window (VolumeSegmenter.config s)) 0%Q)
               (py_max (VolumeSegmenter.last_analysis_time s) 0%Q)).
  destruct (enough_turns available (BufferSegmentIterator.current_position it)
              (BufferSegmentIterator.window_size it) Hw) as [n Hn].
  destruct (update_loop_terminates available n Havail s it Hw) as (s' & Hsame & Hrun).
  { simpl. lra. }
  { exact Hn. }
  exists n, (VolumeSegmenter.trim_history s' current_time). split.
  { eapply same_segments_trans; [exact Hsame|]. now repeat split. }
  intros fuel Hfuel. unfold VolumeSegmenter._update_volume_history.
  fold it. now rewrite (Hrun fuel Hfuel).
Qed.
End Loop.

(** ** Volume segmenter: the boundary decision *)

Import VolumeSegmenter.

Lemma update_loop_same_segments (np_sqrt : Q -> Q) (b : CircularAudioBuffer.t)
      (current_time : Q) (fuel : nat) :
  forall (s s' : VolumeSegmenter.t) (it : BufferSegmentIterator.t),
    update_loop np_sqrt fuel s b current_time it = Some (Ret s') ->
    same_segments s s'.
Proof.
  induction fuel as [|fuel IH]; intros s s' it Hrun; [discriminate|].
  simpl in Hrun.
  destruct (BufferSegmentIterator.has_next it b) as [[|]|]; try discriminate.
  2:{ injection Hrun as <-. apply same_segments_refl. }
  destruct (BufferSegmentIterator.next it b) as [[[[timestamp segment] it']|]|];
    try discriminate.
  2:{ injection Hrun as <-. apply same_segments_refl. }
  destruct (Qle_bool current_time timestamp).
  { injection Hrun as <-. apply same_segments_refl. }
  apply IH in Hrun. eapply same_segments_trans; [|exact Hrun]. now repeat split.
Qed.

Lemma update_volume_history_same_segments (np_sqrt : Q -> Q) (b : CircularAudioBuffer.t)
      (current_time : Q) (fuel : nat) (s s1 : VolumeSegmenter.t)
      (new_segments : list SegmentInfo) :
  _update_volume_history np_sqrt fuel s b current_time = Some (Ret (new_segments, s1)) ->
  new_segments = [] /\ same_segments s s1.
Proof.
  unfold _update_volume_history. intros Hrun.
  destruct (update_loop _ _ _ _ _ _) as [[s'|]|] eqn:Hloop; try discriminate.
  injection Hrun as <- <-. split; [reflexivity|].
  apply update_loop_same_segments in Hloop.
  eapply same_segments_trans; [exact Hloop|]. now repeat split.
Qed.

(** The outcome of the boundary check, case by case. *)
Lemma check_for_segment_boundary_cases (s : VolumeSegmenter.t) (current_time : Q) :
  let elapsed := (current_time - current_segment_start s)%Q in
  let cfg := config s in
  ((max_segment_duration cfg <= elapsed)%Q ->
   _check_for_segment_boundary s current_time
   = Some (_create_segment s current_time "max_length" 0))
  /\ ((elapsed < max_segment_duration cfg)%Q ->
      (elapsed < min_segment_duration cfg)%Q ->
      _check_for_segment_boundary s current_time = None)
  /\ ((elapsed < max_segment_duration cfg)%Q ->
      (min_segment_duration cfg <= elapsed)%Q ->
      (target_segment_duration cfg <= elapsed)%Q ->
      _check_for_segment_boundary s current_time
      = match _detect_natural_pause s current_time with
        | Some (pause_end_time, silence_duration) =>
            Some (_create_segment s pause_end_time "natural_pause" silence_duration)
        | None => None
        end)
  /\ ((elapsed < max_segment_duration cfg)%Q ->
      (min_segment_duration cfg <= elapsed)%Q ->
      (elapsed < target_segment_duration cfg)%Q ->
      _check_for_segment_boundary s current_time = None).
Proof.
  intros elapsed cfg. unfold _check_for_segment_boundary. fold elapsed cfg.
  repeat split.
  - intros H. apply Qle_bool_iff in H. now rewrite H.
  - intros H1 H2. apply Qle_bool_false_iff in H1. apply Qlt_bool_iff in H2.
    now rewrite H1, H2.
  - intros H1 H2 H3. apply Qle_bool_false_iff in H1. apply Qlt_bool_false_iff in H2.
    apply Qle_bool_iff in H3. now rewrite H1, H2, H3.
  - intros H1 H2 H3. apply Qle_bool_false_iff in H1. apply Qlt_bool_false_iff in H2.
    apply Qle_bool_false_iff in H3. now rewrite H1, H2, H3.
Qed.

(** Every segment the boundary check returns. *)
Lemma check_for_segment_boundary_some (s : VolumeSegmenter.t) (current_time : Q)
      (seg : SegmentInfo) :
  _check_for_segment_boundary s current_time = Some seg ->
  let elapsed := (current_time - current_segment_start s)%Q in
  let cfg := config s in
  start_time seg = current_segment_start s
  /\ duration seg = (end_time seg - start_time seg)%Q
  /\ ((reason seg = "max_length" /\ end_time seg = current_time
       /\ (max_segment_duration cfg <= elapsed)%Q)
      \/ (reason seg = "natural_pause"
          /\ (elapsed < max_segment_duration cfg)%Q
          /\ (min_segment_duration cfg <= elapsed)%Q
          /\ (target_segment_duration cfg <= elapsed)%Q
          /\ exists silence_duration,
               _detect_natural_pause s current_time
               = Some (end_time seg, silence_duration))).
Proof.
  intros Hcheck elapsed cfg. unfold _check_for_segment_boundary in Hcheck.
  fold elapsed cfg in Hcheck.
  destruct (Qle_bool (max_segment_duration cfg) elapsed) eqn:Hmax.
  { injection Hcheck as <-. repeat split. left. repeat split.
    now apply Qle_bool_iff. }
  destruct (Qlt_bool elapsed (min_segment_duration cfg)) eqn:Hmin; [discriminate|].
  destruct (Qle_bool (target_segment_duration cfg) elapsed) eqn:Htarget; [|discriminate].
  destruct (_detect_natural_pause s current_time) as [[pe sd]|] eqn:Hpause;
    [|discriminate].
  injection Hcheck as <-. repeat split. right.
  apply Qle_bool_false_iff in Hmax. apply Qlt_bool_false_iff in Hmin.
  apply Qle_bool_iff in Htarget. repeat split; try assumption. now exists sd.
Qed.

(** A call of [analyze_and_segment] that reaches the boundary check: the
    state [s1] after the history update differs from [s] in the volume
    history and the last speech time only, and the call returns what the
    check decides on [s1]. *)
Lemma analyze_and_segment_runs (np_sqrt : Q -> Q) (s : VolumeSegmenter.t)
      (b : CircularAudioBuffer.t) (now current_time : Q) :
  CircularAudioBuffer.well_formed b ->
  (0 < analysis_window (config s))%Q ->
  is_analyzing s = true ->
  CircularAudioBuffer.get_recording_duration b now = Ret current_time ->
  (last_analysis_time s < current_time)%Q ->
  exists (enough : nat) (s1 : VolumeSegmenter.t),
    same_segments s s1
    /\ forall fuel, (enough < fuel)%nat ->
         analyze_and_segment np_sqrt fuel s b now
         = Some (Ret (match _check_for_segment_boundary s1 current_time with
                      | Some segment =>
                          ([segment],
                           set_last_analysis_time (_finalize_segment s1 segment)
                                                  current_time)
                      | None => ([], set_last_analysis_time s1 current_time)
                      end)).
Proof.
  intros Hwf Hw Han Hnow Hadv.
  destruct (update_volume_history_terminates np_sqrt b current_time Hwf s Hw)
    as (n & s1 & Hsame & Hrun).
  exists n, s1. split; [exact Hsame|]. intros fuel Hfuel.
  unfold analyze_and_segment. rewrite Han, Hnow. simpl.
  apply Qle_bool_false_iff in Hadv. rewrite Hadv, (Hrun fuel Hfuel).
  now destruct (_check_for_segment_boundary s1 current_time).
Qed.

(** C4. In a call of [analyze_and_segment] that reaches the boundary check
    (analysis is active and the audio time [T] is past the last analysis),
    with [elapsed = T - current_segment_start]: when [elapsed] has reached
    the maximum, one segment of reason [max_length] ending at [T] is
    emitted; otherwise, below the minimum nothing is emitted; otherwise,
    from the target on, the natural-pause search on the updated history
    decides, and only there can a [natural_pause] segment come from; after
    any emitted segment the next segment starts at its end. *)
Theorem boundary_decision_priority (np_sqrt : Q -> Q) (s : VolumeSegmenter.t)
        (b : CircularAudioBuffer.t) (now T : Q) :
  CircularAudioBuffer.well_formed b ->
  (0 < analysis_window (config s))%Q ->
  is_analyzing s = true ->
  CircularAudioBuffer.get_recording_duration b now = Ret T ->
  (last_analysis_time s < T)%Q ->
  exists (enough : nat) (s1 : VolumeSegmenter.t),
    same_segments s s1
    /\ forall fuel, (enough < fuel)%nat ->
       exists (emitted : list SegmentInfo) (s' : VolumeSegmenter.t),
         analyze_and_segment np_sqrt fuel s b now = Some (Ret (emitted, s'))
         /\ let elapsed := (T - current_segment_start s)%Q in
            let cfg := config s in
            ((max_segment_duration cfg <= elapsed)%Q ->
             exists seg, emitted = [seg] /\ reason seg = "max_length"
                         /\ start_time seg = current_segment_start s
                         /\ end_time seg = T)
            /\ ((elapsed < max_segment_duration cfg)%Q ->
                (elapsed < min_segment_duration cfg)%Q ->
                emitted = [] /\ current_segment_start s' = current_segment_start s)
            /\ ((elapsed < max_segment_duration cfg)%Q ->
                (min_segment_duration cfg <= elapsed)%Q ->
                (target_segment_duration cfg <= elapsed)%Q ->
                emitted = match _detect_natural_pause s1 T with
                          | Some (pause_end_time, silence_duration) =>
                              [_create_segment s1 pause_end_time "natural_pause"
                                               silence_duration]
                          | None => []
                          end)
            /\ (forall seg, In seg emitted -> reason seg = "natural_pause" ->
                  (elapsed < max_segment_duration cfg)%Q
                  /\ (min_segment_duration cfg <= elapsed)%Q
                  /\ (target_segment_duration cfg <= elapsed)%Q)
            /\ (forall seg, In seg emitted ->
                  emitted = [seg] /\ current_segment_start s' = end_time seg).
Proof.
  intros Hwf Hw Han Hnow Hadv.
  destruct (analyze_and_segment_runs np_sqrt s b now T Hwf Hw Han Hnow Hadv)
    as (n & s1 & Hsame & Hrun).
  exists n, s1. split; [exact Hsame|]. intros fuel Hfuel.
  destruct Hsame as (Hcfg & Hstart & _).
  pose proof (check_for_segment_boundary_cases s1 T) as Hcases.
  pose proof (check_for_segment_boundary_some s1 T) as Hsome.
  rewrite Hcfg, Hstart in Hcases, Hsome. cbv zeta in Hcases, Hsome.
  destruct Hcases as (Hmax & Hmin & Htarget & _).
  specialize (Hrun fuel Hfuel).
  destruct (_check_for_segment_boundary s1 T) as [segment|] eqn:Hcheck.
  - exists [segment], (set_last_analysis_time (_finalize_segment s1 segment) T).
    split; [exact Hrun|]. cbv zeta.
    destruct (Hsome segment eq_refl) as (Hs & Hd & Hreason).
    repeat split.
    + intros H. specialize (Hmax H). injection Hmax as ->.
      eexists. repeat split. simpl. exact Hstart.
    + specialize (Hmin H H0). discriminate.
    + specialize (Hmin H H0). discriminate.
    + intros H1 H2 H3. specialize (Htarget H1 H2 H3).
      destruct (_detect_natural_pause s1 T) as [[pe sd]|]; [|discriminate].
      now injection Htarget as ->.
    + destruct H as [<-|[]].
      destruct Hreason as [(Hr & _)|(_ & H1 & _)]; [congruence|exact H1].
    + destruct H as [<-|[]].
      destruct Hreason as [(Hr & _)|(_ & _ & H1 & _)]; [congruence|exact H1].
    + destruct H as [<-|[]].
      destruct Hreason as [(Hr & _)|(_ & _ & _ & H1 & _)]; [congruence|exact H1].
    + now destruct H as [<-|[]].
    + now destruct H as [<-|[]].
  - exists [], (set_last_analysis_time s1 T). split; [exact Hrun|]. cbv zeta.
    repeat split; try (intros; now exfalso).
    + intros H. specialize (Hmax H). discriminate.
    + simpl. exact Hstart.
    + intros H1 H2 H3. specialize (Htarget H1 H2 H3).
      now destruct (_detect_natural_pause s1 T) as [[pe sd]|].
Qed.

Lemma boundary_decision_priority_witness :
  exists (enough : nat) (s1 : VolumeSegmenter.t),
    same_segments Demo.segmenter s1
    /\ forall fuel, (enough < fuel)%nat ->
       exists (emitted : list SegmentInfo) (s' : VolumeSegmenter.t),
         analyze_and_segment sqrt_exact fuel Demo.segmenter Demo.after1 1005
         = Some (Ret (emitted, s'))
         /\ (forall seg, In seg emitted ->
               emitted = [seg] /\ current_segment_start s' = end_time seg).
Proof.
  destruct (boundary_decision_priority sqrt_exact Demo.segmenter Demo.after1 1005 (9 # 2))
    as (enough & s1 & Hsame & Hrun).
  - split; reflexivity.
  - reflexivity.
  - reflexivity.
  - reflexivity.
  - reflexivity.
  - exists enough, s1. split; [exact Hsame|]. intros fuel Hfuel.
    destruct (Hrun fuel Hfuel) as (emitted & s' & Hret & _ & _ & _ & _ & Hnext).
    exists emitted, s'. split; [exact Hret|exact Hnext].
Defined.

(** C6. While analysis is active, with [T] the recording duration: a tail
    [T - current_segment_start] below 5 seconds is discarded, no segment is
    returned and the state is unchanged; otherwise exactly one segment is
    emitted, with reason [final_flush], from the segment start to [T], of
    duration [T - current_segment_start]. *)
Theorem flush_remaining_segment_tail (s : VolumeSegmenter.t)
        (b : CircularAudioBuffer.t) (now T : Q) :
  is_analyzing s = true ->
  CircularAudioBuffer.get_recording_duration b now = Ret T ->
  ((T - current_segment_start s < 5)%Q ->
   flush_remaining_segment s b now = Ret (None, s))
  /\ (~ (T - current_segment_start s < 5)%Q ->
      exists seg s',
        flush_remaining_segment s b now = Ret (Some seg, s')
        /\ reason seg = "final_flush"
        /\ start_time seg = current_segment_start s
        /\ end_time seg = T
        /\ duration seg = (T - current_segment_start s)%Q
        /\ detected_segments s' = detected_segments s ++ [seg]
        /\ current_segment_start s' = T).
Proof.
  intros Han Hnow. unfold flush_remaining_segment. rewrite Han, Hnow. simpl. split.
  - intros Hshort. apply Qlt_bool_iff in Hshort. now rewrite Hshort.
  - intros Hlong. apply Qnot_lt_le, Qlt_bool_false_iff in Hlong. rewrite Hlong.
    eexists _, _. split; [reflexivity|]. now repeat split.
Qed.

Lemma flush_remaining_segment_tail_witness :
  exists seg s',
    flush_remaining_segment Demo.default_segmenter Demo.ten_seconds 1010
    = Ret (Some seg, s')
    /\ reason seg = "final_flush" /\ start_time seg = 0%Q /\ end_time seg = (20 # 2)%Q.
Proof.
  destruct (flush_remaining_segment_tail Demo.default_segmenter Demo.ten_seconds
              1010 (20 # 2)) as [_ Hlong].
  - reflexivity.
  - reflexivity.
  - destruct Hlong as (seg & s' & Hret & Hreason & Hstart & Hend & _).
    + vm_compute. discriminate.
    + exists seg, s'. repeat split; assumption.
Defined.

(** ** Volume segmenter: natural pauses *)

Section Scan.
Variable cfg : VolumeConfig.
Variable baseline_volume : Q.

Local Arguments is_silence : simpl never.

(** Inside a run: the scan stops at the first window that is not silent. *)
Lemma scan_silence_inside (recent : list (Q * Q)) (run_start : Q) :
  scan_silence cfg baseline_volume recent (Some run_start)
  = (Some run_start,
     fst <$> head (List.filter (fun tv => negb (is_silence cfg baseline_volume (snd tv))) recent)).
Proof.
  induction recent as [|[timestamp volume] rest IH]; [reflexivity|].
  simpl.
  destruct (is_silence cfg baseline_volume volume); simpl; [exact IH|reflexivity].
Qed.

Lemma head_filter_none (recent : list (Q * Q)) :
  head (List.filter (fun tv => negb (is_silence cfg baseline_volume (snd tv))) recent) = None
  <-> Forall (fun tv => is_silence cfg baseline_volume (snd tv) = true) recent.
Proof.
  induction recent as [|tv rest IH]; [now split; [constructor|]|].
  simpl. destruct (is_silence cfg baseline_volume (snd tv)) eqn:Hs; simpl.
  - rewrite IH. split.
    + intros HF. now constructor.
    + intros HF. now inversion HF.
  - split; [discriminate|]. intros HF. inversion HF; subst. congruence.
Qed.

Lemma head_filter_some (recent : list (Q * Q)) (tv : Q * Q) :
  head (List.filter (fun tv => negb (is_silence cfg baseline_volume (snd tv))) recent) = Some tv
  <-> exists run after,
        recent = run ++ tv :: after
        /\ Forall (fun tv => is_silence cfg baseline_volume (snd tv) = true) run
        /\ is_silence cfg baseline_volume (snd tv) = false.
Proof.
  induction recent as [|x rest IH].
  { split; [discriminate|]. intros (run & after & H & _). now destruct run. }
  simpl. destruct (is_silence cfg baseline_volume (snd x)) eqn:Hx; simpl.
  - rewrite IH. split.
    + intros (run & after & -> & Hrun & Htv).
      exists (x :: run), after. repeat split; [now constructor|exact Htv].
    + intros (run & after & Heq & Hrun & Htv).
      destruct run as [|y run]; simpl in Heq.
      * injection Heq as -> _. congruence.
      * injection Heq as -> ->. inversion Hrun; subst.
        now exists run, after.
  - split.
    + intros [= <-]. exists [], rest. now repeat split.
    + intros (run & after & Heq & Hrun & Htv).
      destruct run as [|y run]; simpl in Heq.
      * now injection Heq as -> _.
      * injection Heq as -> _. inversion Hrun; subst. congruence.
Qed.

(** The scan from the start finds the first maximal run of silent
    windows: its start, and its end unless the run reaches the end of
    the list. *)
Lemma scan_silence_first_run (recent : list (Q * Q)) (current_time : Q)
      (run_start run_end : Q) :
  (exists e, scan_silence cfg baseline_volume recent None = (Some run_start, e)
             /\ default current_time e = run_end)
  <-> first_silent_run (is_silence cfg baseline_volume) recent current_time
        run_start run_end.
Proof.
  induction recent as [|[timestamp volume] rest IH].
  { split.
    - intros (e & H & _). discriminate.
    - intros (before & run & after & Heq & _ & _ & Hhead & _).
      destruct before, run; discriminate. }
  simpl. destruct (is_silence cfg baseline_volume volume) eqn:Hs.
  - rewrite scan_silence_inside. split.
    + intros (e & Hscan & <-). injection Hscan as <- <-.
      destruct (head (List.filter _ rest)) as [tv|] eqn:Hhead.
      * apply head_filter_some in Hhead as (run & after & -> & Hrun & Htv).
        exists [], ((timestamp, volume) :: run), (tv :: after).
        repeat split; try easy. now constructor.
      * apply head_filter_none in Hhead.
        exists [], ((timestamp, volume) :: rest), [].
        rewrite app_nil_r. repeat split; try easy. now constructor.
    + intros (before & run & after & Heq & Hbefore & Hrun & Hhead & Hend).
      destruct before as [|x before].
      2:{ injection Heq as <- _. inversion Hbefore; subst.
          simpl in *. congruence. }
      destruct run as [|x run]; [discriminate|].
      simpl in Heq, Hhead. injection Heq as <- ->. injection Hhead as <-.
      inversion Hrun; subst. eexists. split; [reflexivity|].
      destruct after as [|tv after].
      * rewrite app_nil_r. apply head_filter_none in H2. rewrite H2. now subst.
      * destruct Hend as [Htv ->].
        replace (head (List.filter _ (run ++ tv :: after))) with (Some tv); [reflexivity|].
        symmetry. apply head_filter_some. now exists run, after.
  - rewrite IH. split.
    + intros (before & run & after & -> & Hbefore & Hrun & Hhead & Hend).
      exists ((timestamp, volume) :: before), run, after.
      repeat split; try easy. now constructor.
    + intros (before & run & after & Heq & Hbefore & Hrun & Hhead & Hend).
      destruct before as [|x before].
      { destruct run as [|x run]; [discriminate|]. simpl in Heq.
        injection Heq as <- _. inversion Hrun; subst.
        simpl in *. congruence. }
      injection Heq as <- ->. inversion Hbefore; subst.
      now exists before, run, after.
Qed.

(** An end found by the scan is the time of one of the windows. *)
Lemma scan_silence_end_in (recent : list (Q * Q)) (st : option Q)
      (run_start : option Q) (run_end : Q) :
  scan_silence cfg baseline_volume recent st = (run_start, Some run_end) ->
  exists volume, In (run_end, volume) recent.
Proof.
  revert st. induction recent as [|[timestamp volume] rest IH]; intros st Hscan;
    [discriminate|].
  simpl in Hscan.
  destruct (is_silence cfg baseline_volume volume), st;
    try (apply IH in Hscan as [v Hv]; exists v; now right).
  injection Hscan as _ <-. exists volume. now left.
Qed.
End Scan.

Lemma baseline_volumes_are_the_window (s : VolumeSegmenter.t) (current_time : Q) :
  baseline_volumes_of s current_time = baseline_window s current_time.
Proof.
  unfold baseline_volumes_of, baseline_window. f_equal.
  apply List.filter_ext_in. intros [t v] Hin. simpl. f_equal.
  unfold recent_volumes_of in Hin. apply List.filter_In in Hin as [_ Hrecent].
  simpl in Hrecent. unfold py_max.
  destruct (Qlt_bool _ _) eqn:Hlt; [|reflexivity].
  apply Qlt_bool_iff in Hlt. rewrite Hrecent. symmetry.
  apply Qle_bool_iff. apply Qle_bool_iff in Hrecent. lra.
Qed.

(** The end of a detected pause is the current time or the time of a
    window of the trailing lookback history. *)
Lemma detect_natural_pause_end (s : VolumeSegmenter.t) (current_time : Q)
      (pause_end_time silence_duration : Q) :
  _detect_natural_pause s current_time = Some (pause_end_time, silence_duration) ->
  pause_end_time = current_time
  \/ (current_time - lookback_window (config s) <= pause_end_time)%Q.
Proof.
  unfold _detect_natural_pause.
  destruct (_ <? _)%nat; [discriminate|]. destruct (_ <? _)%nat; [discriminate|].
  destruct (baseline_volumes_of s current_time); [discriminate|].
  destruct (scan_silence _ _ _ _) as [[ss|] [se|]] eqn:Hscan; try discriminate.
  - destruct (Qle_bool _ _); [|discriminate]. intros [= <- _]. right.
    apply scan_silence_end_in in Hscan as [v Hv].
    unfold recent_volumes_of in Hv. apply List.filter_In in Hv as [_ Hv].
    simpl in Hv. now apply Qle_bool_iff in Hv.
  - destruct (Qle_bool _ _); [|discriminate]. intros [= <- _]. now left.
Qed.

(** C5, as the code has it. A pause is reported exactly when the trailing
    lookback history holds at least three windows, the baseline window is
    not empty, and the first maximal run of silent windows (a window is
    silent when its RMS is below the silence threshold or below the
    baseline mean times the drop threshold; the run ends at the current
    time when silence is still going on) lasts at least
    [min_pause_duration]; the reported end is the end of that run, and a
    [natural_pause] segment ends there. *)
Theorem detect_natural_pause_first_run (s : VolumeSegmenter.t) (current_time : Q) :
  (forall pause_end_time silence_duration,
      _detect_natural_pause s current_time = Some (pause_end_time, silence_duration)
      <-> ((3 <= length (recent_volumes_of s current_time))%nat
           /\ baseline_window s current_time <> []
           /\ exists run_start,
                first_silent_run
                  (is_silence (config s) (np_mean (baseline_window s current_time)))
                  (recent_volumes_of s current_time)
                  current_time run_start pause_end_time
                /\ silence_duration = (pause_end_time - run_start)%Q
                /\ (min_pause_duration (config s) <= silence_duration)%Q))
  /\ (forall seg,
         _check_for_segment_boundary s current_time = Some seg ->
         reason seg = "natural_pause" ->
         exists silence_duration,
           _detect_natural_pause s current_time = Some (end_time seg, silence_duration)).
Proof.
  split.
  2:{ intros seg Hcheck Hreason.
      destruct (check_for_segment_boundary_some s current_time seg Hcheck)
        as (_ & _ & [(Hr & _)|(_ & _ & _ & _ & Hsd)]); [congruence|exact Hsd]. }
  intros pe sd. rewrite <- baseline_volumes_are_the_window.
  unfold _detect_natural_pause.
  set (recent := recent_volumes_of s current_time).
  destruct (Nat.ltb_spec (length (volume_history s)) 3) as [Hh|Hh].
  { split; [discriminate|]. intros (Hlen & _). exfalso.
    pose proof (List.filter_length_le
                  (fun tv => Qle_bool (current_time - lookback_window (config s))%Q (fst tv))
                  (volume_history s)) as Hf.
    unfold recent, recent_volumes_of in Hlen. lia. }
  destruct (Nat.ltb_spec (length recent) 3) as [Hr|Hr].
  { split; [discriminate|]. intros (Hlen & _). lia. }
  destruct (baseline_volumes_of s current_time) as [|v0 baseline'].
  { split; [discriminate|]. now intros (_ & Hne & _). }
  set (baseline := v0 :: baseline').
  pose proof (scan_silence_first_run (config s) (np_mean baseline) recent current_time)
    as Hrun.
  destruct (scan_silence (config s) (np_mean baseline) recent None) as [ss e] eqn:Hscan.
  split.
  - intros Hdet. split; [exact Hr|]. split; [discriminate|].
    destruct ss as [ss|]; [|now destruct e].
    assert (Hpe : default current_time e = pe /\ sd = (pe - ss)%Q
                  /\ Qle_bool (min_pause_duration (config s)) sd = true).
    { destruct e as [se|]; simpl;
        (destruct (Qle_bool _ _) eqn:Hle; [|discriminate]);
        injection Hdet as <- <-; now repeat split. }
    destruct Hpe as (Hpe & Hsd & Hle). exists ss. split.
    + apply Hrun. now exists e.
    + split; [exact Hsd|now apply Qle_bool_iff].
  - intros (_ & _ & run_start & Hfirst & -> & Hle).
    apply Hrun in Hfirst as (e' & He' & <-).
    injection He' as -> <-. apply Qle_bool_iff in Hle.
    destruct e as [se|]; simpl in *; now rewrite Hle.
Qed.

(** C5, counterexample. Two seconds of audio, a loud second and a silent
    one, with a target of 2 s: the analysis at [T = 4/2] records the
    windows at 0 and 1; the baseline window holds the first, the window at
    1 is silent and the silence is still going on, so the first run lasts
    from 1 to [T], more than [min_pause_duration]; yet no pause is reported
    and nothing is emitted, because fewer than three windows are at hand. *)
Lemma natural_pause_needs_three_windows :
  exists s1,
    (forall fuel, (2 < fuel)%nat ->
       analyze_and_segment sqrt_exact fuel Demo.quick_segmenter Demo.two_seconds 1002
       = Some (Ret ([], set_last_analysis_time s1 (4 # 2))))
    /\ volume_history s1 = [(0, 1 # 2); (1, 0)]%Q
    /\ (target_segment_duration (config s1) <= (4 # 2) - current_segment_start s1)%Q
    /\ baseline_window s1 (4 # 2) <> []
    /\ first_silent_run
         (is_silence (config s1) (np_mean (baseline_window s1 (4 # 2))))
         (recent_volumes_of s1 (4 # 2)) (4 # 2) 1 (4 # 2)
    /\ (min_pause_duration (config s1) <= (4 # 2) - 1)%Q
    /\ _detect_natural_pause s1 (4 # 2) = None.
Proof.
  exists (mk Demo.quick_config 0 0 0 [(0, 1 # 2); (1, 0)]%Q [] true).
  split.
  { intros fuel Hfuel. do 3 (destruct fuel as [|fuel]; [lia|]). reflexivity. }
  repeat split; try discriminate.
  exists [(0, 1 # 2)]%Q, [(1, 0)]%Q, []. repeat split.
  - repeat constructor.
  - repeat constructor.
Qed.

(** ** Volume segmenter: the emitted segments *)

Lemma chain_app (l1 l2 : list SegmentInfo) (t0 t1 t2 : Q) :
  chain t0 l1 t1 -> chain t1 l2 t2 -> chain t0 (l1 ++ l2) t2.
Proof.
  revert t0. induction l1 as [|seg l1 IH]; simpl; intros t0.
  - now intros ->.
  - intros (? & ? & ? & ?) Hnext. repeat split; try assumption. now apply IH.
Qed.

Lemma chain_contiguous (l : list SegmentInfo) (t0 t1 : Q) :
  chain t0 l t1 -> contiguous_from t0 l.
Proof.
  revert t0. induction l as [|seg l IH]; simpl; intros t0; [easy|].
  intros (? & ? & ? & ?). repeat split; try assumption. now apply IH.
Qed.

Lemma check_for_segment_boundary_positive (s : VolumeSegmenter.t) (current_time : Q)
      (seg : SegmentInfo) :
  positive_segments (config s) ->
  _check_for_segment_boundary s current_time = Some seg ->
  (current_segment_start s < end_time seg)%Q.
Proof.
  intros (Hmax & Htarget & Hlook) Hcheck.
  destruct (check_for_segment_boundary_some s current_time seg Hcheck)
    as (_ & _ & [(_ & -> & Hle)|(_ & _ & _ & Hle & sd & Hpause)]).
  - lra.
  - apply detect_natural_pause_end in Hpause as [-> | Hpe]; lra.
Qed.

Section Steps.
Variable np_sqrt : Q -> Q.

Lemma analyze_and_segment_config (fuel : nat) (s s' : VolumeSegmenter.t)
      (b : CircularAudioBuffer.t) (now : Q) (emitted : list SegmentInfo) :
  analyze_and_segment np_sqrt fuel s b now = Some (Ret (emitted, s')) ->
  config s' = config s.
Proof.
  unfold analyze_and_segment.
  destruct (negb (is_analyzing s)); [now intros [= _ <-]|].
  destruct (CircularAudioBuffer.get_recording_duration b now) as [T|]; [|discriminate].
  destruct (Qle_bool T (last_analysis_time s)); [now intros [= _ <-]|].
  destruct (_update_volume_history _ _ _ _ _) as [[[ns s1]|]|] eqn:Hup; try discriminate.
  apply update_volume_history_same_segments in Hup as (_ & Hcfg & _).
  destruct (_check_for_segment_boundary s1 T); now intros [= _ <-].
Qed.

Lemma analyze_and_segment_chain (fuel : nat) (s s' : VolumeSegmenter.t)
      (b : CircularAudioBuffer.t) (now : Q) (emitted : list SegmentInfo) :
  positive_segments (config s) ->
  analyze_and_segment np_sqrt fuel s b now = Some (Ret (emitted, s')) ->
  chain (current_segment_start s) emitted (current_segment_start s').
Proof.
  intros Hcfg. unfold analyze_and_segment.
  destruct (negb (is_analyzing s)); [now intros [= <- <-]|].
  destruct (CircularAudioBuffer.get_recording_duration b now) as [T|]; [|discriminate].
  destruct (Qle_bool T (last_analysis_time s)); [now intros [= <- <-]|].
  destruct (_update_volume_history _ _ _ _ _) as [[[ns s1]|]|] eqn:Hup; try discriminate.
  apply update_volume_history_same_segments in Hup as (-> & Hc & Hstart & _).
  destruct (_check_for_segment_boundary s1 T) as [seg|] eqn:Hcheck;
    intros [= <- <-]; simpl; [|now rewrite Hstart].
  rewrite <- Hc in Hcfg.
  pose proof (check_for_segment_boundary_positive s1 T seg Hcfg Hcheck) as Hpos.
  destruct (check_for_segment_boundary_some s1 T seg Hcheck) as (Hs & Hd & _).
  rewrite Hs. repeat split; [congruence|exact Hpos|congruence].
Qed.

Lemma flush_remaining_segment_chain (s s' : VolumeSegmenter.t)
      (b : CircularAudioBuffer.t) (now : Q) (r : option SegmentInfo) :
  flush_remaining_segment s b now = Ret (r, s') ->
  config s' = config s
  /\ chain (current_segment_start s)
           (match r with Some seg => [seg] | None => [] end)
           (current_segment_start s').
Proof.
  unfold flush_remaining_segment.
  destruct (negb (is_analyzing s)); [now intros [= <- <-]|].
  destruct (CircularAudioBuffer.get_recording_duration b now) as [T|]; [|discriminate].
  simpl. destruct (Qlt_bool _ _) eqn:Hshort; intros [= <- <-]; [easy|].
  apply Qlt_bool_false_iff in Hshort. simpl. repeat split. lra.
Qed.

(** Safety: whatever a run has emitted is contiguous. *)
Lemma run_chain (fuel : nat) (ops : list op) :
  forall (s s' : VolumeSegmenter.t) (emitted : list SegmentInfo),
    positive_segments (config s) ->
    run np_sqrt fuel s ops = Some (Ret (emitted, s')) ->
    chain (current_segment_start s) emitted (current_segment_start s').
Proof.
  induction ops as [|o ops IH]; intros s s' emitted Hcfg Hrun; simpl in Hrun.
  { now injection Hrun as <- <-. }
  assert (Hstep : forall e1 s1,
             match o with
             | Analyze b now => analyze_and_segment np_sqrt fuel s b now
             | Flush b now =>
                 Some (r ← flush_remaining_segment s b now;
                       Ret (match r.1 with Some seg => [seg] | None => [] end, r.2))
             | Stop => Some (Ret ([], stop_analysis s))
             end = Some (Ret (e1, s1)) ->
             config s1 = config s
             /\ chain (current_segment_start s) e1 (current_segment_start s1)).
  { intros e1 s1 H. destruct o as [b now|b now|].
    - split; [now apply analyze_and_segment_config in H|].
      now apply analyze_and_segment_chain in H.
    - destruct (flush_remaining_segment s b now) as [[r s2]|] eqn:Hflush;
        [|discriminate].
      simpl in H. injection H as <- <-.
      now apply flush_remaining_segment_chain in Hflush.
    - now injection H as <- <-. }
  destruct (match o with Analyze _ _ => _ | _ => _ end) as [[[e1 s1]|]|];
    try discriminate.
  destruct (Hstep e1 s1 eq_refl) as [Hc Hchain].
  destruct (run np_sqrt fuel s1 ops) as [[[e2 s2]|]|] eqn:Hrest; try discriminate.
  injection Hrun as <- <-. eapply chain_app; [exact Hchain|].
  apply IH; [now rewrite Hc|exact Hrest].
Qed.

Lemma analyze_and_segment_returns (s : VolumeSegmenter.t)
      (b : CircularAudioBuffer.t) (now : Q) :
  CircularAudioBuffer.well_formed b ->
  (0 < analysis_window (config s))%Q ->
  exists enough r, forall fuel, (enough < fuel)%nat ->
    analyze_and_segment np_sqrt fuel s b now = Some (Ret r).
Proof.
  intros Hwf Hw. unfold analyze_and_segment.
  destruct (negb (is_analyzing s)); [now exists O, ([], s)|].
  destruct (recording_duration_well_formed b now Hwf) as [T ->].
  destruct (Qle_bool T (last_analysis_time s)); [now exists O, ([], s)|].
  destruct (update_volume_history_terminates np_sqrt b T Hwf s Hw)
    as (n & s1 & _ & Hrun).
  destruct (_check_for_segment_boundary s1 T) as [seg|] eqn:Hcheck.
  - exists n, ([seg], set_last_analysis_time (_finalize_segment s1 seg) T).
    intros fuel Hfuel. now rewrite (Hrun fuel Hfuel), Hcheck.
  - exists n, ([], set_last_analysis_time s1 T).
    intros fuel Hfuel. now rewrite (Hrun fuel Hfuel), Hcheck.
Qed.

(** Totality: with well-formed buffers and a positive analysis window
    every run returns, whatever fuel it is given beyond some bound. *)
Lemma run_returns (ops : list op) :
  Forall op_well_formed ops ->
  forall s : VolumeSegmenter.t,
    (0 < analysis_window (config s))%Q ->
    exists enough emitted s', forall fuel, (enough < fuel)%nat ->
      run np_sqrt fuel s ops = Some (Ret (emitted, s')).
Proof.
  induction 1 as [|o ops Ho _ IH]; intros s Hw.
  { now exists O, [], s. }
  assert (Hstep : exists n1 e1 s1,
             config s1 = config s
             /\ forall fuel, (n1 < fuel)%nat ->
                  match o with
                  | Analyze b now => analyze_and_segment np_sqrt fuel s b now
                  | Flush b now =>
                      Some (r ← flush_remaining_segment s b now;
                            Ret (match r.1 with Some seg => [seg] | None => [] end, r.2))
                  | Stop => Some (Ret ([], stop_analysis s))
                  end = Some (Ret (e1, s1))).
  { destruct o as [b now|b now|]; simpl in Ho.
    - destruct (analyze_and_segment_returns s b now Ho Hw) as (n1 & [e1 s1] & H1).
      exists n1, e1, s1. split; [|exact H1].
      eapply analyze_and_segment_config. apply (H1 (S n1)). lia.
    - destruct (flush_remaining_segment s b now) as [[r s1]|] eqn:Hflush.
      + exists O, (match r with Some seg => [seg] | None => [] end), s1.
        split; [|reflexivity]. now apply flush_remaining_segment_chain in Hflush.
      + exfalso. unfold flush_remaining_segment in Hflush.
        destruct (negb _); [discriminate|].
        destruct (recording_duration_well_formed b now Ho) as [T HT].
        rewrite HT in Hflush. simpl in Hflush. now destruct (Qlt_bool _ _).
    - now exists O, [], (stop_analysis s). }
  destruct Hstep as (n1 & e1 & s1 & Hc & H1).
  destruct (IH s1) as (n2 & e2 & s2 & H2); [now rewrite Hc|].
  exists (Nat.max n1 n2), (e1 ++ e2), s2. intros fuel Hfuel. simpl.
  rewrite H1, H2 by lia. reflexivity.
Qed.
End Steps.

(** ** Volume segmenter: further properties *)

Import VolumeSegmenter.

Section Runs.
Variable np_sqrt : Q -> Q.

(** A relation that holds of every step of a run holds of the run. *)
Lemma run_relates (R : VolumeSegmenter.t -> list SegmentInfo -> VolumeSegmenter.t -> Prop) :
  (forall s, R s [] s) ->
  (forall s e1 s1 e2 s2, R s e1 s1 -> R s1 e2 s2 -> R s (e1 ++ e2) s2) ->
  (forall fuel s b now e s',
      analyze_and_segment np_sqrt fuel s b now = Some (Ret (e, s')) -> R s e s') ->
  (forall s b now r s',
      flush_remaining_segment s b now = Ret (r, s') ->
      R s (match r with Some seg => [seg] | None => [] end) s') ->
  (forall s, R s [] (stop_analysis s)) ->
  forall fuel ops s e s',
    run np_sqrt fuel s ops = Some (Ret (e, s')) -> R s e s'.
Proof.
  intros Hrefl Htrans Hanalyze Hflush Hstop fuel ops.
  induction ops as [|o ops IH]; intros s e s' Hrun; simpl in Hrun.
  { injection Hrun as <- <-. apply Hrefl. }
  assert (Hstep : forall e1 s1,
             match o with
             | Analyze b now => analyze_and_segment np_sqrt fuel s b now
             | Flush b now =>
                 Some (r ← flush_remaining_segment s b now;
                       Ret (match r.1 with Some seg => [seg] | None => [] end, r.2))
             | Stop => Some (Ret ([], stop_analysis s))
             end = Some (Ret (e1, s1)) -> R s e1 s1).
  { intros e1 s1 H. destruct o as [b now|b now|].
    - now apply Hanalyze in H.
    - destruct (flush_remaining_segment s b now) as [[r s2]|] eqn:Hf; [|discriminate].
      simpl in H. injection H as <- <-. now apply Hflush in Hf.
    - injection H as <- <-. apply Hstop. }
  destruct (match o with Analyze _ _ => _ | _ => _ end) as [[[e1 s1]|]|];
    try discriminate.
  specialize (Hstep e1 s1 eq_refl).
  destruct (run np_sqrt fuel s1 ops) as [[[e2 s2]|]|] eqn:Hrest; try discriminate.
  injection Hrun as <- <-. eapply Htrans; [exact Hstep|]. now apply IH.
Qed.

(** What a call of [analyze_and_segment] that returns has done. *)
Lemma analyze_and_segment_inversion (fuel : nat) (s s' : VolumeSegmenter.t)
      (b : CircularAudioBuffer.t) (now : Q) (e : list SegmentInfo) :
  analyze_and_segment np_sqrt fuel s b now = Some (Ret (e, s')) ->
  (e = [] /\ s' = s)
  \/ exists T s1,
       is_analyzing s = true
       /\ CircularAudioBuffer.get_recording_duration b now = Ret T
       /\ (last_analysis_time s < T)%Q
       /\ _update_volume_history np_sqrt fuel s b T = Some (Ret ([], s1))
       /\ ((exists seg, _check_for_segment_boundary s1 T = Some seg
                        /\ e = [seg]
                        /\ s' = set_last_analysis_time (_finalize_segment s1 seg) T)
           \/ (_check_for_segment_boundary s1 T = None
               /\ e = [] /\ s' = set_last_analysis_time s1 T)).
Proof.
  unfold analyze_and_segment.
  destruct (is_analyzing s); simpl; [|intros [= <- <-]; now left].
  destruct (CircularAudioBuffer.get_recording_duration b now) as [T|]; [|discriminate].
  destruct (Qle_bool T (last_analysis_time s)) eqn:Hadv; [intros [= <- <-]; now left|].
  apply Qle_bool_false_iff in Hadv.
  destruct (_update_volume_history _ _ _ _ _) as [[[ns s1]|]|] eqn:Hup; try discriminate.
  pose proof (update_volume_history_same_segments _ _ _ _ _ _ _ Hup) as [-> _].
  intros H. right. exists T, s1. repeat split; try assumption.
  destruct (_check_for_segment_boundary s1 T) as [seg|]; injection H as <- <-.
  - left. now exists seg.
  - now right.
Qed.

(** The entries the window loop appends are earlier than the current
    time. *)
Lemma update_loop_history (b : CircularAudioBuffer.t) (current_time : Q) (fuel : nat) :
  forall (s s' : VolumeSegmenter.t) (it : BufferSegmentIterator.t),
    update_loop np_sqrt fuel s b current_time it = Some (Ret s') ->
    exists new,
      volume_history s' = volume_history s ++ new
      /\ Forall (fun tv => (fst tv < current_time)%Q) new.
Proof.
  induction fuel as [|fuel IH]; intros s s' it Hrun; [discriminate|].
  simpl in Hrun.
  destruct (BufferSegmentIterator.has_next it b) as [[|]|]; try discriminate.
  2:{ injection Hrun as <-. exists []. now rewrite app_nil_r. }
  destruct (BufferSegmentIterator.next it b) as [[[[timestamp segment] it']|]|];
    try discriminate.
  2:{ injection Hrun as <-. exists []. now rewrite app_nil_r. }
  destruct (Qle_bool current_time timestamp) eqn:Hbreak.
  { injection Hrun as <-. exists []. now rewrite app_nil_r. }
  apply IH in Hrun as (new & Hnew & Hall). simpl in Hnew.
  exists ((timestamp, _calculate_rms np_sqrt segment) :: new).
  split; [now rewrite Hnew, <- app_assoc|].
  constructor; [|exact Hall]. simpl. now apply Qle_bool_false_iff.
Qed.

Lemma analyze_and_segment_history (fuel : nat) (s s' : VolumeSegmenter.t)
      (b : CircularAudioBuffer.t) (now : Q) (e : list SegmentInfo) :
  analyze_and_segment np_sqrt fuel s b now = Some (Ret (e, s')) ->
  history_in_window s -> history_in_window s'.
Proof.
  intros Hrun Hinv.
  destruct (analyze_and_segment_inversion _ _ _ _ _ _ Hrun)
    as [[_ ->]|(T & s1 & _ & _ & Hadv & Hup & Hcheck)]; [exact Hinv|].
  assert (Hs1 : Forall (fun tv => (T - lookback_window (config s1) * 2 <= fst tv)%Q
                                  /\ (fst tv < T)%Q) (volume_history s1)).
  { unfold _update_volume_history in Hup.
    destruct (update_loop _ _ _ _ _ _) as [[s2|]|] eqn:Hloop; try discriminate.
    injection Hup as <-. simpl.
    destruct (update_loop_history _ _ _ _ _ _ Hloop) as (new & Hnew & Hall).
    apply Forall_forall. intros tv Hin. apply list_elem_of_In in Hin.
    apply List.filter_In in Hin as [Hin Hcut].
    apply Qle_bool_iff in Hcut. split; [exact Hcut|].
    rewrite Hnew in Hin. apply List.in_app_or in Hin as [Hold|Hnew'].
    - unfold history_in_window in Hinv. rewrite Forall_forall in Hinv.
      apply list_elem_of_In in Hold. destruct (Hinv tv Hold) as [_ Hlt]. lra.
    - rewrite Forall_forall in Hall. apply Hall. now apply list_elem_of_In. }
  unfold history_in_window.
  destruct Hcheck as [(seg & _ & _ & ->)|(_ & _ & ->)]; simpl; exact Hs1.
Qed.

Lemma flush_remaining_segment_inversion (s s' : VolumeSegmenter.t)
      (b : CircularAudioBuffer.t) (now : Q) (r : option SegmentInfo) :
  flush_remaining_segment s b now = Ret (r, s') ->
  (r = None /\ s' = s)
  \/ exists T seg,
       CircularAudioBuffer.get_recording_duration b now = Ret T
       /\ (5 <= T - current_segment_start s)%Q
       /\ r = Some seg /\ s' = _finalize_segment s seg
       /\ reason seg = "final_flush"
       /\ duration seg = (T - current_segment_start s)%Q
       /\ start_time seg = current_segment_start s
       /\ end_time seg = T.
Proof.
  unfold flush_remaining_segment.
  destruct (negb (is_analyzing s)); [intros [= <- <-]; now left|].
  destruct (CircularAudioBuffer.get_recording_duration b now) as [T|]; [|discriminate].
  simpl. destruct (Qlt_bool _ _) eqn:Hshort; intros [= <- <-]; [now left|].
  apply Qlt_bool_false_iff in Hshort. right. eexists T, _. now repeat split.
Qed.

Lemma stop_analysis_inactive (s : VolumeSegmenter.t) :
  is_analyzing s = false -> stop_analysis s = s.
Proof. destruct s. simpl. now intros ->. Qed.
End Runs.

(** C10, at the failing input. The configuration has a minimum of 2 s and
    a target of 4 s, shorter than the 5 s lookback window; 7 s of audio
    are written, the third second silent. The analysis at 4.5 s emits the
    segment from 0 to 3, where the pause ends. The analysis at 7 s scans
    the lookback window, which reaches back before the start of the
    current segment, finds the same pause again and emits a second
    [natural_pause] segment from 3 to 3: it has no length, so
    [end_time > start_time] fails, and it is shorter than the minimum. *)
Theorem same_pause_emitted_twice :
  exists seg1 seg2 s',
    (forall fuel, (4 < fuel)%nat ->
       run sqrt_exact fuel Demo.segmenter
           [Analyze Demo.after1 1005; Analyze Demo.after2 1008]
       = Some (Ret ([seg1; seg2], s')))
    /\ start_time seg1 = 0%Q /\ end_time seg1 = 3%Q
    /\ start_time seg2 = 3%Q /\ end_time seg2 = 3%Q
    /\ reason seg2 = "natural_pause"
    /\ (duration seg2 < min_segment_duration Demo.short_config)%Q
    /\ ~ contiguous_from 0 [seg1; seg2].
Proof.
  eexists _, _, _. split.
  { intros fuel Hfuel. do 5 (destruct fuel as [|fuel]; [lia|]).
    vm_compute. reflexivity. }
  repeat split. simpl. intros (_ & _ & _ & _ & H & _). now apply Qlt_irrefl in H.
Qed.

Lemma linked_app (l1 l2 : list SegmentInfo) (t0 t1 t2 : Q) :
  linked t0 l1 t1 -> linked t1 l2 t2 -> linked t0 (l1 ++ l2) t2.
Proof.
  revert t0. induction l1 as [|seg l1 IH]; simpl; intros t0.
  - now intros ->.
  - intros (? & ? & ?) Hnext. repeat split; try assumption. now apply IH.
Qed.

Lemma linked_linked_from (l : list SegmentInfo) (t0 t1 : Q) :
  linked t0 l t1 -> linked_from t0 l.
Proof.
  revert t0. induction l as [|seg l IH]; simpl; intros t0; [easy|].
  intros (? & ? & ?). repeat split; try assumption. now apply IH.
Qed.

(** Safety: whatever a run has emitted is linked, in every configuration. *)
Lemma run_linked (np_sqrt : Q -> Q) (fuel : nat) (ops : list op)
      (s s' : VolumeSegmenter.t) (emitted : list SegmentInfo) :
  run np_sqrt fuel s ops = Some (Ret (emitted, s')) ->
  linked (current_segment_start s) emitted (current_segment_start s').
Proof.
  apply (run_relates np_sqrt
           (fun s e s' => linked (current_segment_start s) e (current_segment_start s'))).
  - now intros s0.
  - intros s0 e1 s1 e2 s2. apply linked_app.
  - intros fuel0 s0 b now e s1 H.
    destruct (analyze_and_segment_inversion _ _ _ _ _ _ _ H)
      as [[-> ->]|(T & s2 & _ & _ & _ & Hup & Hcheck)]; [reflexivity|].
    apply update_volume_history_same_segments in Hup as (_ & _ & Hstart & _).
    destruct Hcheck as [(seg & Hcheck & -> & ->)|(_ & -> & ->)]; simpl;
      [|exact Hstart].
    destruct (check_for_segment_boundary_some s2 T seg Hcheck) as (Hs & Hd & _).
    repeat split; [congruence|exact Hd].
  - intros s0 b now r s1 H.
    destruct (flush_remaining_segment_inversion _ _ _ _ _ H)
      as [[-> ->]|(T & seg & _ & _ & -> & -> & _ & Hdur & Hs & He)]; [reflexivity|].
    simpl. repeat split; [exact Hs|]. now rewrite Hdur, He, Hs.
  - now intros s0.
Qed.

(** X2. In every configuration the segments emitted after
    [start_analysis] are linked: the first starts at 0, each later one
    starts where the one before ends, and each has
    [duration = end_time - start_time]; whether a segment has a positive
    length is not part of this. With well-formed buffers and a positive
    analysis window every sequence of calls returns. *)
Theorem emitted_segments_are_linked (np_sqrt : Q -> Q) (cfg : VolumeConfig)
        (ops : list op) :
  (forall fuel emitted s',
      run np_sqrt fuel (start_analysis (init cfg)) ops = Some (Ret (emitted, s')) ->
      linked_from 0 emitted)
  /\ ((0 < analysis_window cfg)%Q ->
      Forall op_well_formed ops ->
      exists enough emitted s',
        (forall fuel, (enough < fuel)%nat ->
           run np_sqrt fuel (start_analysis (init cfg)) ops = Some (Ret (emitted, s')))
        /\ linked_from 0 emitted).
Proof.
  assert (Hsafe : forall fuel emitted s',
             run np_sqrt fuel (start_analysis (init cfg)) ops = Some (Ret (emitted, s')) ->
             linked_from 0 emitted).
  { intros fuel emitted s' Hrun.
    apply (linked_linked_from emitted 0 (current_segment_start s')).
    now apply (run_linked np_sqrt fuel ops (start_analysis (init cfg))). }
  split; [exact Hsafe|].
  intros Hw Hops.
  destruct (run_returns np_sqrt ops Hops (start_analysis (init cfg)) Hw)
    as (enough & emitted & s' & Hrun).
  exists enough, emitted, s'. split; [exact Hrun|].
  apply (Hsafe (S enough) emitted s'). apply Hrun. lia.
Qed.

(** X3. For a configuration with
    [0 <= lookback_window < target_segment_duration <= max_segment_duration]
    (the defaults, and the ranges of the settings menu, are such): the
    segments emitted by any sequence of [analyze_and_segment]
    and [flush_remaining_segment] calls after [start_analysis] start at 0,
    each begins where the one before ends, and each has
    [end_time > start_time] and [duration = end_time - start_time]; and
    with well-formed buffers and a positive analysis window every such
    sequence of calls returns. *)
Theorem emitted_segments_are_contiguous (np_sqrt : Q -> Q) (cfg : VolumeConfig)
        (ops : list op) :
  (0 <= lookback_window cfg)%Q ->
  (lookback_window cfg < target_segment_duration cfg)%Q ->
  (target_segment_duration cfg <= max_segment_duration cfg)%Q ->
  (forall fuel emitted s',
      run np_sqrt fuel (start_analysis (init cfg)) ops = Some (Ret (emitted, s')) ->
      contiguous_from 0 emitted)
  /\ ((0 < analysis_window cfg)%Q ->
      Forall op_well_formed ops ->
      exists enough emitted s', forall fuel, (enough < fuel)%nat ->
        run np_sqrt fuel (start_analysis (init cfg)) ops = Some (Ret (emitted, s'))).
Proof.
  intros Hlook Htarget Hmax.
  assert (Hcfg : positive_segments cfg) by (unfold positive_segments; lra).
  split.
  - intros fuel emitted s' Hrun.
    apply (chain_contiguous emitted 0 (current_segment_start s')).
    now apply (run_chain np_sqrt fuel ops (start_analysis (init cfg))).
  - intros Hw Hops. now apply run_returns.
Qed.

Lemma emitted_segments_are_contiguous_witness :
  (forall fuel emitted s',
      run sqrt_exact fuel Demo.default_segmenter
          [Analyze Demo.ten_seconds 1010; Flush Demo.ten_seconds 1010]
      = Some (Ret (emitted, s')) ->
      contiguous_from 0 emitted)
  /\ exists enough emitted s', forall fuel, (enough < fuel)%nat ->
       run sqrt_exact fuel Demo.default_segmenter
           [Analyze Demo.ten_seconds 1010; Flush Demo.ten_seconds 1010]
       = Some (Ret (emitted, s')).
Proof.
  destruct (emitted_segments_are_contiguous sqrt_exact default_config
              [Analyze Demo.ten_seconds 1010; Flush Demo.ten_seconds 1010])
    as [Hsafe Hlive]; [simpl; lra..|].
  split; [exact Hsafe|]. apply Hlive; [reflexivity|].
  repeat constructor; vm_compute; reflexivity.
Defined.

(** X10. [get_detected_segments] returns every segment emitted since
    [start_analysis], in the order of emission: with well-formed buffers
    and a positive analysis window every sequence of calls returns, and
    the detected list is the list of what the calls returned. *)
Theorem detected_segments_are_the_emitted (np_sqrt : Q -> Q) (cfg : VolumeConfig)
        (ops : list op) :
  (0 < analysis_window cfg)%Q ->
  Forall op_well_formed ops ->
  exists enough emitted s',
    (forall fuel, (enough < fuel)%nat ->
       run np_sqrt fuel (start_analysis (init cfg)) ops = Some (Ret (emitted, s')))
    /\ get_detected_segments s' = emitted.
Proof.
  intros Hw Hops.
  destruct (run_returns np_sqrt ops Hops (start_analysis (init cfg)) Hw)
    as (enough & emitted & s' & Hrun).
  exists enough, emitted, s'. split; [exact Hrun|].
  specialize (Hrun (S enough) (Nat.lt_succ_diag_r _)).
  apply (run_relates np_sqrt
           (fun s e s' => detected_segments s' = detected_segments s ++ e))
    in Hrun; [exact Hrun|..].
  - intros s. now rewrite app_nil_r.
  - intros s e1 s1 e2 s2 H1 H2. now rewrite H2, H1, app_assoc.
  - intros fuel s b now e s1 H.
    destruct (analyze_and_segment_inversion _ _ _ _ _ _ _ H)
      as [[-> ->]|(T & s2 & _ & _ & _ & Hup & Hcheck)]; [now rewrite app_nil_r|].
    apply update_volume_history_same_segments in Hup as (_ & _ & _ & _ & Hdet & _).
    destruct Hcheck as [(seg & _ & -> & ->)|(_ & -> & ->)]; simpl.
    + now rewrite Hdet.
    + now rewrite app_nil_r.
  - intros s b now r s1 H.
    destruct (flush_remaining_segment_inversion _ _ _ _ _ H)
      as [[-> ->]|(T & seg & _ & _ & -> & -> & _)]; [now rewrite app_nil_r|].
    reflexivity.
  - intros s. simpl. now rewrite app_nil_r.
Qed.

Lemma detected_segments_are_the_emitted_witness :
  exists enough emitted s',
    (forall fuel, (enough < fuel)%nat ->
       run sqrt_exact fuel Demo.segmenter
           [Analyze Demo.after1 1005; Analyze Demo.after2 1008]
       = Some (Ret (emitted, s')))
    /\ get_detected_segments s' = emitted.
Proof.
  apply (detected_segments_are_the_emitted sqrt_exact Demo.short_config
           [Analyze Demo.after1 1005; Analyze Demo.after2 1008]).
  - reflexivity.
  - repeat constructor; vm_compute; reflexivity.
Defined.

(** X11. The volume history stays bounded in time: after any sequence of
    calls since [start_analysis], every entry of the history is earlier
    than the last analysis time and no more than two lookback windows
    before it. *)
Theorem volume_history_stays_in_window (np_sqrt : Q -> Q) (cfg : VolumeConfig)
        (ops : list op) :
  (0 < analysis_window cfg)%Q ->
  Forall op_well_formed ops ->
  exists enough emitted s',
    (forall fuel, (enough < fuel)%nat ->
       run np_sqrt fuel (start_analysis (init cfg)) ops = Some (Ret (emitted, s')))
    /\ history_in_window s'.
Proof.
  intros Hw Hops.
  destruct (run_returns np_sqrt ops Hops (start_analysis (init cfg)) Hw)
    as (enough & emitted & s' & Hrun).
  exists enough, emitted, s'. split; [exact Hrun|].
  specialize (Hrun (S enough) (Nat.lt_succ_diag_r _)).
  apply (run_relates np_sqrt (fun s e s' => history_in_window s -> history_in_window s'))
    in Hrun.
  - exact Hrun.
  - now intros s.
  - intros s e1 s1 e2 s2 H1 H2 H. auto.
  - intros fuel s b now e s1 H. exact (analyze_and_segment_history _ _ _ _ _ _ _ H).
  - intros s b now r s1 H.
    destruct (flush_remaining_segment_inversion _ _ _ _ _ H)
      as [[-> ->]|(T & seg & _ & _ & -> & -> & _)]; [easy|].
    now intros Hinv.
  - now intros s.
  - unfold history_in_window. simpl. constructor.
Qed.

Lemma volume_history_stays_in_window_witness :
  exists enough emitted s',
    (forall fuel, (enough < fuel)%nat ->
       run sqrt_exact fuel Demo.default_segmenter
           [Analyze Demo.ten_seconds 1010; Flush Demo.ten_seconds 1010]
       = Some (Ret (emitted, s')))
    /\ history_in_window s'.
Proof.
  apply (volume_history_stays_in_window sqrt_exact default_config
           [Analyze Demo.ten_seconds 1010; Flush Demo.ten_seconds 1010]).
  - reflexivity.
  - repeat constructor; vm_compute; reflexivity.
Defined.

(** The bound on the duration of a segment of the boundary check. *)
Lemma check_for_segment_boundary_duration (s : VolumeSegmenter.t) (current_time : Q)
      (seg : SegmentInfo) :
  (0 <= lookback_window (config s))%Q ->
  _check_for_segment_boundary s current_time = Some seg ->
  duration_bound (config s) seg.
Proof.
  intros Hlook Hcheck.
  destruct (check_for_segment_boundary_some s current_time seg Hcheck)
    as (Hstart & Hdur & [(Hreason & Hend & Hle)|(Hreason & _ & _ & Hle & sd & Hpause)]).
  - left. split; [exact Hreason|]. rewrite Hdur, Hend, Hstart. exact Hle.
  - right. left. split; [exact Hreason|]. rewrite Hdur, Hstart.
    apply detect_natural_pause_end in Hpause as [-> | Hpe]; lra.
Qed.

(** Safety: the duration bounds of whatever a run has emitted. *)
Lemma run_duration_bounds (np_sqrt : Q -> Q) (fuel : nat) (ops : list op)
      (s s' : VolumeSegmenter.t) (emitted : list SegmentInfo) :
  (0 <= lookback_window (config s))%Q ->
  run np_sqrt fuel s ops = Some (Ret (emitted, s')) ->
  Forall (duration_bound (config s)) emitted.
Proof.
  intros Hlook Hrun.
  apply (run_relates np_sqrt
           (fun s e s' =>
              config s' = config s
              /\ ((0 <= lookback_window (config s))%Q ->
                  Forall (duration_bound (config s)) e)))
    in Hrun.
  - now apply Hrun.
  - intros s0. split; [reflexivity|constructor].
  - intros s0 e1 s1 e2 s2 [Hc1 H1] [Hc2 H2]. split; [congruence|].
    intros H. apply Forall_app. split; [now apply H1|].
    rewrite <- Hc1. apply H2. now rewrite Hc1.
  - intros fuel0 s0 b now e s1 H.
    split; [exact (analyze_and_segment_config np_sqrt _ _ _ _ _ _ H)|]. intros H0.
    destruct (analyze_and_segment_inversion _ _ _ _ _ _ _ H)
      as [[-> _]|(T & s2 & _ & _ & _ & Hup & Hcheck)]; [constructor|].
    apply update_volume_history_same_segments in Hup as (_ & Hc & _).
    destruct Hcheck as [(seg & Hcheck & -> & _)|(_ & -> & _)]; [|constructor].
    constructor; [|constructor]. rewrite <- Hc.
    apply (check_for_segment_boundary_duration s2 T seg); [now rewrite Hc|exact Hcheck].
  - intros s0 b now r s1 H.
    split; [now apply flush_remaining_segment_chain in H|]. intros _.
    destruct (flush_remaining_segment_inversion _ _ _ _ _ H)
      as [[-> _]|(T & seg & _ & Hfive & -> & _ & Hreason & Hdur & _)]; [constructor|].
    constructor; [|constructor]. right. right. split; [exact Hreason|]. now rewrite Hdur.
  - intros s0. split; [reflexivity|constructor].
Qed.

(** X12. How long an emitted segment is at least, by the reason of its
    boundary: with a lookback window that is not negative, every segment
    emitted by a sequence of calls after [start_analysis] either has
    reason [max_length] and lasts at least [max_segment_duration], or has
    reason [natural_pause] and lasts at least
    [target_segment_duration - lookback_window], or has reason
    [final_flush] and lasts at least 5 seconds. *)
Theorem emitted_segment_durations (np_sqrt : Q -> Q) (cfg : VolumeConfig)
        (ops : list op) :
  (0 <= lookback_window cfg)%Q ->
  (0 < analysis_window cfg)%Q ->
  Forall op_well_formed ops ->
  exists enough emitted s',
    (forall fuel, (enough < fuel)%nat ->
       run np_sqrt fuel (start_analysis (init cfg)) ops = Some (Ret (emitted, s')))
    /\ Forall (duration_bound cfg) emitted.
Proof.
  intros Hlook Hw Hops.
  destruct (run_returns np_sqrt ops Hops (start_analysis (init cfg)) Hw)
    as (enough & emitted & s' & Hrun).
  exists enough, emitted, s'. split; [exact Hrun|].
  specialize (Hrun (S enough) (Nat.lt_succ_diag_r _)).
  now apply run_duration_bounds in Hrun.
Qed.

Lemma emitted_segment_durations_witness :
  exists enough emitted s',
    (forall fuel, (enough < fuel)%nat ->
       run sqrt_exact fuel Demo.segmenter
           [Analyze Demo.after1 1005; Flush Demo.after2 1008]
       = Some (Ret (emitted, s')))
    /\ Forall (duration_bound Demo.short_config) emitted.
Proof.
  apply (emitted_segment_durations sqrt_exact Demo.short_config
           [Analyze Demo.after1 1005; Flush Demo.after2 1008]).
  - simpl. lra.
  - reflexivity.
  - repeat constructor; vm_compute; reflexivity.
Defined.

(** X13. A segmenter that is not analysing (before [start_analysis] or
    after [stop_analysis]) ignores every call: whatever the buffers hold,
    [analyze_and_segment] and [flush_remaining_segment] emit nothing and
    leave the state as it is. *)
Theorem inactive_segmenter_emits_nothing (np_sqrt : Q -> Q) (fuel : nat)
        (s : VolumeSegmenter.t) (ops : list op) :
  is_analyzing s = false ->
  run np_sqrt fuel s ops = Some (Ret ([], s)).
Proof.
  intros Hoff. induction ops as [|o ops IH]; [reflexivity|].
  simpl. destruct o as [b now|b now|].
  - unfold analyze_and_segment. rewrite Hoff. simpl. now rewrite IH.
  - unfold flush_remaining_segment. rewrite Hoff. simpl. now rewrite IH.
  - rewrite (stop_analysis_inactive s Hoff). now rewrite IH.
Qed.

Lemma inactive_segmenter_emits_nothing_witness :
  run sqrt_exact 0 (stop_analysis Demo.default_segmenter)
      [Analyze Demo.ten_seconds 1010; Flush Demo.ten_seconds 1010; Stop]
  = Some (Ret ([], stop_analysis Demo.default_segmenter)).
Proof.
  apply (inactive_segmenter_emits_nothing sqrt_exact 0
           (stop_analysis Demo.default_segmenter)
           [Analyze Demo.ten_seconds 1010; Flush Demo.ten_seconds 1010; Stop]).
  reflexivity.
Defined.

(** X14. The window iterator never goes beyond the capacity of the buffer:
    [has_next] compares the position, counted from the start of the
    recording, with the available duration, which is at most the capacity.
    So once the last analysis time is within one analysis window of the
    capacity, [_update_volume_history] records no window any more, however
    much audio has been written since: it only drops the old entries of
    the history. *)
Theorem no_volume_window_beyond_capacity (np_sqrt : Q -> Q) (fuel : nat)
        (s : VolumeSegmenter.t) (b : CircularAudioBuffer.t) (current_time : Q) :
  CircularAudioBuffer.well_formed b ->
  (0 <= last_analysis_time s)%Q ->
  (inject_Z (CircularAudioBuffer.buffer_size b)
   / inject_Z (CircularAudioBuffer.sample_rate b * CircularAudioBuffer.channels b)
   < last_analysis_time s + analysis_window (config s))%Q ->
  _update_volume_history np_sqrt (S fuel) s b current_time
  = Some (Ret ([], trim_history s current_time)).
Proof.
  intros [Hrate Hsize] Hlast Hcap.
  unfold _update_volume_history. simpl.
  unfold BufferSegmentIterator.has_next, CircularAudioBuffer.get_available_duration,
    py_truediv.
  destruct (Z.eqb_spec (CircularAudioBuffer.sample_rate b * CircularAudioBuffer.channels b) 0)
    as [|_]; [lia|].
  simpl.
  set (rc := CircularAudioBuffer.sample_rate b * CircularAudioBuffer.channels b) in *.
  set (position := py_max 0 (py_max (last_analysis_time s) 0)).
  assert (Hposition : (position == last_analysis_time s)%Q).
  { unfold position, py_max.
    destruct (Qlt_bool (last_analysis_time s) 0) eqn:Hneg.
    { apply Qlt_bool_iff in Hneg. lra. }
    destruct (Qlt_bool 0 (last_analysis_time s)) eqn:Hzero; [reflexivity|].
    apply Qlt_bool_false_iff in Hzero. lra. }
  assert (Havailable :
            (inject_Z (Z.min (CircularAudioBuffer.total_samples_written b)
                             (CircularAudioBuffer.buffer_size b)) / inject_Z rc
             <= inject_Z (CircularAudioBuffer.buffer_size b) / inject_Z rc)%Q).
  { apply Qmult_le_compat_r.
    - rewrite <- Zle_Qle. lia.
    - apply Qinv_le_0_compat. change 0%Q with (inject_Z 0). rewrite <- Zle_Qle. lia. }
  replace (Qle_bool _ _) with false; [reflexivity|].
  symmetry. apply Qle_bool_false_iff. simpl. fold position. lra.
Qed.

Lemma no_volume_window_beyond_capacity_witness :
  _update_volume_history sqrt_exact 1
    (mk default_config 0 2 0 [(1, 1 # 2)]%Q [] true)
    (py_get Demo.small
       (CircularAudioBuffer.writes
          (CircularAudioBuffer.start_recording Demo.small 1000) Demo.wrap_writes))
    3
  = Some (Ret ([], trim_history (mk default_config 0 2 0 [(1, 1 # 2)]%Q [] true) 3)).
Proof.
  apply (no_volume_window_beyond_capacity sqrt_exact 0
           (mk default_config 0 2 0 [(1, 1 # 2)]%Q [] true)
           (py_get Demo.small
              (CircularAudioBuffer.writes
                 (CircularAudioBuffer.start_recording Demo.small 1000)
                 Demo.wrap_writes))
           3).
  - vm_compute. split; reflexivity.
  - vm_compute. discriminate.
  - vm_compute. reflexivity.
Defined.

(** X15. Segment durations that the settings menu accepts give sound
    segments. With the [VolumeConfig] that the recorder builds from
    accepted durations, every sequence of calls after [start_analysis]
    on well-formed buffers returns; the emitted segments start at 0 and
    follow one another without gap or overlap; a [final_flush] segment
    lasts at least 5 seconds and every other segment at least 25. *)
Theorem accepted_durations_give_sound_segments (np_sqrt : Q -> Q)
        (min_dur target_dur max_dur : Z) (ops : list op) :
  segment_durations_accepted min_dur target_dur max_dur = true ->
  Forall op_well_formed ops ->
  exists enough emitted s',
    (forall fuel, (enough < fuel)%nat ->
       run np_sqrt fuel
           (start_analysis (init (streaming_volume_config min_dur target_dur max_dur)))
           ops
       = Some (Ret (emitted, s')))
    /\ contiguous_from 0 emitted
    /\ Forall (fun seg => (reason seg = "final_flush" /\ (5 <= duration seg)%Q)
                          \/ (25 <= duration seg)%Q) emitted.
Proof.
  intros Haccepted Hops.
  unfold segment_durations_accepted in Haccepted.
  repeat (apply andb_prop in Haccepted as [Haccepted ?]).
  repeat match goal with H : (_ <=? _) = true |- _ => apply Z.leb_le in H end.
  set (cfg := streaming_volume_config min_dur target_dur max_dur).
  assert (Htarget : (30 <= target_segment_duration cfg)%Q).
  { simpl. change 30%Q with (inject_Z 30). rewrite <- Zle_Qle. lia. }
  assert (Hmax : (60 <= max_segment_duration cfg)%Q).
  { simpl. change 60%Q with (inject_Z 60). rewrite <- Zle_Qle. lia. }
  assert (Hlook : lookback_window cfg = 5%Q) by reflexivity.
  destruct (run_returns np_sqrt ops Hops (start_analysis (init cfg)) eq_refl)
    as (enough & emitted & s' & Hrun).
  exists enough, emitted, s'. split; [exact Hrun|].
  specialize (Hrun (S enough) (Nat.lt_succ_diag_r _)). split.
  - apply (chain_contiguous emitted 0 (current_segment_start s')).
    apply (run_chain np_sqrt (S enough) ops (start_analysis (init cfg)));
      [|exact Hrun].
    unfold positive_segments. change (config (start_analysis (init cfg))) with cfg.
    rewrite Hlook. repeat split; lra.
  - apply run_duration_bounds in Hrun; [|simpl; lra].
    change (config (start_analysis (init cfg))) with cfg in Hrun.
    eapply Forall_impl; [exact Hrun|].
    intros seg [[_ Hd]|[[_ Hd]|[Hr Hd]]].
    + right. lra.
    + right. rewrite Hlook in Hd. lra.
    + left. now split.
Qed.

Lemma accepted_durations_give_sound_segments_witness :
  exists enough emitted s',
    (forall fuel, (enough < fuel)%nat ->
       run sqrt_exact fuel
           (start_analysis (init (streaming_volume_config 30 60 90)))
           [Analyze Demo.ten_seconds 1010; Flush Demo.ten_seconds 1010]
       = Some (Ret (emitted, s')))
    /\ contiguous_from 0 emitted
    /\ Forall (fun seg => (reason seg = "final_flush" /\ (5 <= duration seg)%Q)
                          \/ (25 <= duration seg)%Q) emitted.
Proof.
  apply (accepted_durations_give_sound_segments sqrt_exact 30 60 90
           [Analyze Demo.ten_seconds 1010; Flush Demo.ten_seconds 1010]).
  - reflexivity.
  - repeat constructor; vm_compute; reflexivity.
Defined.
End SegmenterProofs.

Section AssemblerProofs.
(** ** Transcript assembler *)

Import QuickTranscriptAssembler.

Lemma collect_parts_omap (segs : gmap string TranscriptionSegment)
      (order : list string) (transcript_parts : list string) :
  collect_parts segs order transcript_parts
  = transcript_parts
    ++ omap (fun segment_id =>
               seg ← segs !! segment_id;
               if Status_eqb (status seg) completed
                  && str_truthy (strip (transcription seg))
               then Some (strip (transcription seg)) else None) order.
Proof.
  revert transcript_parts.
  induction order as [|segment_id rest IH]; intros parts; simpl.
  { now rewrite app_nil_r. }
  destruct (segs !! segment_id) as [seg|]; simpl; [|apply IH].
  destruct (Status_eqb _ _ && _); [|apply IH].
  rewrite IH, <- app_assoc. reflexivity.
Qed.

Lemma apply_event_is_processing (a : QuickTranscriptAssembler.t) (e : event) :
  is_processing (apply_event a e) = is_processing a.
Proof.
  destruct e; simpl; try reflexivity.
  - unfold add_segment_for_transcription. now destruct (negb (is_processing a)).
  - unfold transcribe_begin. now destruct (_ !! _).
  - unfold transcribe_complete. now destruct (_ !! _).
  - unfold transcribe_failed. now destruct (_ !! _).
Qed.

Lemma run_events_segment_order (events : list event) :
  forall a : QuickTranscriptAssembler.t,
    segment_order (run_events a events)
    = segment_order a ++ (if is_processing a then submitted_ids events else []).
Proof.
  induction events as [|e events IH]; intros a; simpl.
  { destruct (is_processing a); now rewrite app_nil_r. }
  unfold run_events in *. simpl. rewrite IH, apply_event_is_processing.
  destruct e; simpl; try reflexivity.
  - unfold add_segment_for_transcription.
    destruct (is_processing a); simpl; [|reflexivity].
    now rewrite <- app_assoc.
  - unfold transcribe_begin. now destruct (_ !! _).
  - unfold transcribe_complete. now destruct (_ !! _).
  - unfold transcribe_failed. now destruct (_ !! _).
Qed.

(** C3. In every state [get_current_transcript] is the join, with single
    spaces, of the stripped non-empty texts of the completed segments,
    taken in the order of [segment_order]; segments that are pending,
    processing or failed add nothing. [segment_order] is the order of
    submission: a run of events appends the ids of its submissions and is
    not touched by the events of the transcription threads, in whatever
    order those complete. *)
Theorem get_current_transcript_in_submission_order (a : QuickTranscriptAssembler.t) :
  get_current_transcript a = str_join " " (completed_texts a)
  /\ forall events : list event,
       segment_order (run_events a events)
       = segment_order a ++ (if is_processing a then submitted_ids events else []).
Proof.
  split.
  - unfold get_current_transcript. now rewrite collect_parts_omap.
  - intros events. apply run_events_segment_order.
Qed.

(** The second of two segments completes first: the transcript still has
    the first segment's text first. *)
Example transcript_after_out_of_order_completion :
  get_current_transcript (run_events Demo.session Demo.out_of_order)
  = "first second text".
Proof. vm_compute. reflexivity. Qed.

(** *** Auto-stop *)

Lemma last_n_all {A : Type} (n : nat) (l : list A) :
  (length l <= n)%nat -> last_n n l = l.
Proof.
  intros H. unfold last_n. now replace (length l - n)%nat with O by lia.
Qed.

Lemma last_n_length {A : Type} (n : nat) (l : list A) :
  (length (last_n n l) <= n)%nat.
Proof. unfold last_n. rewrite length_drop. lia. Qed.

Lemma last_n_app_last_n {A : Type} (n : nat) (l r : list A) :
  last_n n (last_n n l ++ r) = last_n n (l ++ r).
Proof.
  destruct (Nat.le_gt_cases (length l) n) as [Hle|Hgt].
  { now rewrite (last_n_all n l). }
  unfold last_n. rewrite !length_app, length_drop.
  replace (length l - (length l - n) + length r - n)%nat with (length r) by lia.
  replace (length l + length r - n)%nat with ((length l - n) + length r)%nat by lia.
  rewrite <- drop_drop. f_equal.
  rewrite drop_app_le by lia. reflexivity.
Qed.

Lemma strip_empty_or_not (text : string) :
  (if str_truthy text then strip text else EmptyString) = strip text.
Proof. now destruct text. Qed.

Lemma update_empty_segment_counter_window (a : QuickTranscriptAssembler.t)
      (text : string) :
  (length (recent_segment_texts a) <= Z.to_nat (empty_segment_threshold a))%nat ->
  recent_segment_texts (_update_empty_segment_counter a text)
  = last_n (Z.to_nat (empty_segment_threshold a))
           (recent_segment_texts a ++ [strip text]).
Proof.
  intros Hlen. unfold _update_empty_segment_counter. simpl.
  rewrite strip_empty_or_not.
  set (appended := recent_segment_texts a ++ [strip text]).
  assert (Happ : length appended = S (length (recent_segment_texts a))).
  { unfold appended. rewrite length_app. simpl. lia. }
  destruct (Z.ltb_spec (empty_segment_threshold a) (Z.of_nat (length appended))) as [Hpop|Hkeep].
  - unfold last_n.
    replace (length appended - Z.to_nat (empty_segment_threshold a))%nat with 1%nat by lia.
    now destruct appended.
  - rewrite last_n_all; [reflexivity|lia].
Qed.

Lemma apply_event_threshold (a : QuickTranscriptAssembler.t) (e : event) :
  empty_segment_threshold (apply_event a e) = empty_segment_threshold a.
Proof.
  destruct e; simpl; try reflexivity.
  - unfold add_segment_for_transcription. now destruct (negb (is_processing a)).
  - unfold transcribe_begin. now destruct (_ !! _).
  - unfold transcribe_complete. now destruct (_ !! _).
  - unfold transcribe_failed. now destruct (_ !! _).
Qed.

Lemma run_events_window (events : list event) :
  forall a : QuickTranscriptAssembler.t,
    (length (recent_segment_texts a) <= Z.to_nat (empty_segment_threshold a))%nat ->
    recent_segment_texts (run_events a events)
    = last_n (Z.to_nat (empty_segment_threshold a))
             (recent_segment_texts a ++ counted_texts events).
Proof.
  induction events as [|e events IH]; intros a Hlen.
  { simpl. rewrite app_nil_r. now rewrite last_n_all. }
  unfold run_events in *. simpl fold_left.
  assert (Hstep : recent_segment_texts (apply_event a e)
                  = last_n (Z.to_nat (empty_segment_threshold a))
                           (recent_segment_texts a ++ counted_texts [e])).
  { destruct e; simpl counted_texts; rewrite ?app_nil_r;
      try (rewrite last_n_all by exact Hlen).
    - simpl. unfold add_segment_for_transcription. now destruct (negb (is_processing a)).
    - simpl. unfold transcribe_begin. now destruct (_ !! _).
    - simpl. unfold transcribe_complete. now destruct (_ !! _).
    - now apply update_empty_segment_counter_window.
    - simpl. unfold transcribe_failed. now destruct (_ !! _). }
  rewrite IH; rewrite apply_event_threshold.
  2:{ rewrite Hstep. apply last_n_length. }
  rewrite Hstep, last_n_app_last_n, <- app_assoc. f_equal. f_equal.
  now destruct e.
Qed.

(** C7, as the code has it. The window holds the stripped texts handed to
    [_update_empty_segment_counter], the last [empty_segment_threshold] of
    them, in the order of those calls, which is the order in which the
    transcriptions complete. [should_auto_stop] answers true, with a
    reason that is not empty, exactly when the window holds at least
    [empty_segment_threshold] texts and these texts, joined with single
    spaces and stripped, have fewer than [empty_segment_min_chars]
    characters; otherwise it answers false with the empty reason. *)
Theorem should_auto_stop_on_joined_window (a : QuickTranscriptAssembler.t) :
  (forall events : list event,
      recent_segment_texts a = [] ->
      recent_segment_texts (run_events a events)
      = last_n (Z.to_nat (empty_segment_threshold a)) (counted_texts events))
  /\ (fst (should_auto_stop a) = true
      <-> empty_segment_threshold a <= Z.of_nat (length (recent_segment_texts a))
          /\ Z.of_nat (String.length (strip (str_join " " (recent_segment_texts a))))
             < empty_segment_min_chars a)
  /\ (fst (should_auto_stop a) = true -> snd (should_auto_stop a) <> EmptyString)
  /\ (fst (should_auto_stop a) = false -> snd (should_auto_stop a) = EmptyString)
  /\ (Z.of_nat (length (recent_segment_texts a)) < empty_segment_threshold a ->
      should_auto_stop a = (false, EmptyString)).
Proof.
  split.
  { intros events Hempty. rewrite run_events_window; rewrite Hempty; [reflexivity|].
    simpl. lia. }
  unfold should_auto_stop.
  destruct (Z.ltb_spec (Z.of_nat (length (recent_segment_texts a)))
                       (empty_segment_threshold a)) as [Hfew|Henough]; simpl.
  { repeat split; try easy. intros [H _]. lia. }
  destruct (Z.ltb_spec
              (Z.of_nat (String.length (strip (str_join " " (recent_segment_texts a)))))
              (empty_segment_min_chars a)) as [Hshort|Hlong]; simpl.
  - repeat split; try easy. lia.
  - repeat split; try easy. intros [_ H]. lia.
Qed.

(** C7, counterexample. Three texts of three characters each fill the
    window of the default thresholds (3 texts, 10 characters): their
    concatenation has 9 characters, below the minimum, yet the answer is
    false, because the texts are joined with spaces (11 characters). And
    when the second of two segments completes first, the window holds the
    two texts in the order of completion, which is not the order of
    submission. *)
Lemma auto_stop_counts_separators_and_completion_order :
  (recent_segment_texts (run_events Demo.session Demo.three_short)
   = ["abc"; "def"; "ghi"]
   /\ concatenation_below_minimum (run_events Demo.session Demo.three_short) = true
   /\ should_auto_stop (run_events Demo.session Demo.three_short) = (false, EmptyString))
  /\ (recent_segment_texts (run_events Demo.session Demo.out_of_order)
      = ["second text"; "first"]
      /\ completed_texts (run_events Demo.session Demo.out_of_order)
         = ["first"; "second text"]).
Proof. vm_compute. repeat split. Qed.

(** *** Finalize *)

Lemma apply_event_no_completed (a : QuickTranscriptAssembler.t) (e : event) :
  is_complete e = false ->
  no_completed_segment a -> no_completed_segment (apply_event a e).
Proof.
  intros He Ha. destruct e; try discriminate; simpl.
  - unfold add_segment_for_transcription.
    destruct (negb (is_processing a)); [exact Ha|]. simpl.
    intros id seg. simpl. rewrite lookup_insert.
    destruct (decide _); [now intros [= <-]|apply Ha].
  - unfold transcribe_begin. destruct (_ !! segment_id) as [seg0|]; [|exact Ha].
    intros id seg. simpl. rewrite lookup_insert.
    destruct (decide _); [now intros [= <-]|apply Ha].
  - exact Ha.
  - unfold transcribe_failed. destruct (_ !! segment_id) as [seg0|]; [|exact Ha].
    intros id seg. simpl. rewrite lookup_insert.
    destruct (decide _); [now intros [= <-]|apply Ha].
Qed.

Lemma run_events_no_completed (events : list event) :
  Forall (fun e => is_complete e = false) events ->
  forall a, no_completed_segment a -> no_completed_segment (run_events a events).
Proof.
  induction 1 as [|e events He _ IH]; intros a Ha; [exact Ha|].
  unfold run_events in *. simpl. apply IH. now apply apply_event_no_completed.
Qed.

Lemma wait_for_completion_no_completed (polls : list (list event)) :
  Forall (Forall (fun e => is_complete e = false)) polls ->
  forall a, no_completed_segment a ->
            no_completed_segment (snd (wait_for_completion a polls)).
Proof.
  induction 1 as [|evs polls Hevs _ IH]; intros a Ha; [exact Ha|].
  simpl. destruct (_ =? _)%nat; [exact Ha|].
  apply IH. now apply run_events_no_completed.
Qed.

Lemma no_completed_no_text (a : QuickTranscriptAssembler.t) :
  no_completed_segment a -> get_current_transcript a = EmptyString.
Proof.
  intros Ha. unfold get_current_transcript. rewrite collect_parts_omap. simpl.
  replace (omap _ _) with (@nil string); [reflexivity|].
  symmetry. induction (segment_order a) as [|id rest IH]; [reflexivity|].
  simpl. destruct (transcription_segments a !! id) as [seg|] eqn:Hseg; simpl; [|exact IH].
  specialize (Ha id seg Hseg). destruct (status seg); try exact IH. congruence.
Qed.

(** C8. With a session under way, no completed segment when
    [finalize_transcript] is called and none completing while it waits:
    a result is returned, its [has_content] is false, and neither the
    persistence nor the clipboard collaborator is called. *)
Theorem finalize_transcript_without_content (w : world) (a : QuickTranscriptAssembler.t)
        (polls : list (list event)) (now : Q) :
  str_truthy (default EmptyString (current_session a)) = true ->
  no_completed_segment a ->
  Forall (Forall (fun e => is_complete e = false)) polls ->
  exists result a' calls,
    finalize_transcript w a polls now = (Some result, a', calls)
    /\ has_content result = false
    /\ Forall (fun c => is_external c = false) calls.
Proof.
  intros Hsession Ha Hpolls. unfold finalize_transcript. rewrite Hsession. simpl.
  pose proof (wait_for_completion_no_completed polls Hpolls a Ha) as Hwait.
  rewrite (no_completed_no_text _ Hwait). simpl. rewrite andb_false_r.
  eexists _, _, _. split; [reflexivity|]. split; [reflexivity|].
  destruct (transcript_ready_callback _); repeat constructor.
Qed.

Lemma finalize_transcript_without_content_witness :
  exists result a' calls,
    finalize_transcript Demo.world (run_events Demo.session Demo.never_completed)
                        [[]; []] 1200
    = (Some result, a', calls)
    /\ has_content result = false
    /\ Forall (fun c => is_external c = false) calls.
Proof.
  apply (finalize_transcript_without_content Demo.world
           (run_events Demo.session Demo.never_completed) [[]; []] 1200).
  - reflexivity.
  - apply run_events_no_completed.
    + repeat constructor.
    + intros id seg H. vm_compute in H. discriminate.
  - repeat constructor.
Defined.

(** ** Transcript assembler: further properties *)

Import QuickTranscriptAssembler.

Lemma run_events_app (a : QuickTranscriptAssembler.t) (l1 l2 : list event) :
  run_events a (l1 ++ l2) = run_events (run_events a l1) l2.
Proof. unfold run_events. apply fold_left_app. Qed.

(** A property that every event keeps holds after a run of events. *)
Lemma run_events_invariant (I : QuickTranscriptAssembler.t -> Prop) :
  (forall a e, I a -> I (apply_event a e)) ->
  forall events a, I a -> I (run_events a events).
Proof.
  intros Hstep events. induction events as [|e events IH]; intros a Ha; [exact Ha|].
  unfold run_events in *. simpl. apply IH. now apply Hstep.
Qed.

Lemma lookup_update_is_Some (segs : gmap string TranscriptionSegment)
      (segment_id id : string) (old new : TranscriptionSegment) :
  segs !! segment_id = Some old ->
  is_Some (<[segment_id := new]> segs !! id) <-> is_Some (segs !! id).
Proof.
  intros Hold. rewrite lookup_insert_is_Some. split.
  - intros [<- | [_ H]]; [now rewrite Hold|exact H].
  - intros H. destruct (decide (segment_id = id)); [now left|now right].
Qed.

(** X16. The bookkeeping of a session. After [start_session] and any run
    of submissions and transcription-thread steps, [segments_received]
    is the number of ids in [segment_order], and an id is in
    [segment_order] exactly when the dict holds a record for it. *)
Theorem submissions_are_recorded (a0 : QuickTranscriptAssembler.t)
        (session_id : string) (now : Q) (events : list event) :
  let a := run_events (start_session a0 session_id now) events in
  segments_received (processing_stats a) = Z.of_nat (length (segment_order a))
  /\ forall segment_id,
       segment_id ∈ segment_order a
       <-> is_Some (transcription_segments a !! segment_id).
Proof.
  apply (run_events_invariant
           (fun a =>
              segments_received (processing_stats a) = Z.of_nat (length (segment_order a))
              /\ forall segment_id,
                   segment_id ∈ segment_order a
                   <-> is_Some (transcription_segments a !! segment_id))).
  - intros a e [Hcount Hids].
    destruct e as [info submitted_at|segment_id|segment_id text spent|text|segment_id err];
      simpl.
    + unfold add_segment_for_transcription.
      destruct (negb (is_processing a)); [now split|]. simpl. split.
      * rewrite length_app. simpl. lia.
      * intros id. rewrite elem_of_app, lookup_insert_is_Some, Hids, list_elem_of_singleton.
        split.
        -- intros [H | ->]; [|now left].
           destruct (decide (segment_id_of info = id)); [now left|now right].
        -- intros [<- | [_ H]]; [now right|now left].
    + unfold transcribe_begin.
      destruct (transcription_segments a !! segment_id) as [seg|] eqn:Hseg; [|now split].
      simpl. split; [exact Hcount|]. intros id.
      now rewrite (lookup_update_is_Some _ _ _ seg).
    + unfold transcribe_complete.
      destruct (transcription_segments a !! segment_id) as [seg|] eqn:Hseg; [|now split].
      simpl. split; [exact Hcount|]. intros id.
      now rewrite (lookup_update_is_Some _ _ _ seg).
    + now split.
    + unfold transcribe_failed.
      destruct (transcription_segments a !! segment_id) as [seg|] eqn:Hseg; [|now split].
      simpl. split; [exact Hcount|]. intros id.
      now rewrite (lookup_update_is_Some _ _ _ seg).
  - simpl. split; [reflexivity|]. intros id. rewrite lookup_empty. split.
    + intros H. now apply elem_of_nil in H.
    + intros [x H]. discriminate.
Qed.

(** X17. What [wait_for_completion] returns. It stops at the first turn
    of its loop at which no segment is pending or processing, and answers
    true there; it answers false when the deadline passes first, that is
    when every turn found a segment unsettled. It changes nothing itself:
    the state afterwards is the state before with the events of the
    other threads up to that turn. *)
Theorem wait_for_completion_first_settled (polls : list (list event)) :
  forall a : QuickTranscriptAssembler.t,
  exists k,
    (k <= length polls)%nat
    /\ snd (wait_for_completion a polls) = run_events a (concat (take k polls))
    /\ (forall j, (j < k)%nat ->
          pending_count (run_events a (concat (take j polls))) <> O)
    /\ if fst (wait_for_completion a polls)
       then (k < length polls)%nat
            /\ pending_count (snd (wait_for_completion a polls)) = O
       else k = length polls.
Proof.
  induction polls as [|during_sleep rest IH]; intros a.
  { exists O. simpl. repeat split; try reflexivity; intros; lia. }
  simpl. destruct (Nat.eqb_spec (pending_count a) 0) as [Hzero|Hpending].
  { exists O. simpl. repeat split; try reflexivity; lia. }
  destruct (IH (run_events a during_sleep)) as (k & Hk & Hstate & Hbefore & Hresult).
  exists (S k). simpl. rewrite run_events_app. repeat split.
  - lia.
  - exact Hstate.
  - intros [|j] Hj; [exact Hpending|]. simpl. rewrite run_events_app.
    apply Hbefore. lia.
  - destruct (fst (wait_for_completion (run_events a during_sleep) rest)).
    + split; [lia|apply Hresult].
    + now rewrite Hresult.
Qed.

Lemma py_max_left (a b : Q) : (a <= py_max a b)%Q.
Proof.
  unfold py_max. destruct (Qlt_bool a b) eqn:H; [|lra].
  apply Qlt_bool_iff in H. lra.
Qed.

Lemma py_max_right (a b : Q) : (b <= py_max a b)%Q.
Proof.
  unfold py_max. destruct (Qlt_bool a b) eqn:H; [lra|].
  now apply Qlt_bool_false_iff in H.
Qed.

Lemma fold_max_le (l : list Q) :
  forall m, (m <= fold_left (fun m y => if Qlt_bool m y then y else m) l m)%Q
            /\ Forall (fun x => (x <= fold_left (fun m y => if Qlt_bool m y then y else m) l m)%Q) l.
Proof.
  induction l as [|y l IH]; intros m; simpl; [split; [lra|constructor]|].
  destruct (IH (if Qlt_bool m y then y else m)) as [Hm Hl].
  pose proof (py_max_left m y) as H1. pose proof (py_max_right m y) as H2.
  unfold py_max in H1, H2.
  split; [lra|]. constructor; [lra|exact Hl].
Qed.

Lemma np_max_upper (l : list Q) : Forall (fun x => (x <= np_max l)%Q) l.
Proof.
  destruct l as [|x l]; [constructor|]. simpl.
  destruct (fold_max_le l x) as [Hx Hl]. now constructor.
Qed.

(** X18. The dynamic timeout of the final wait: 10 seconds when no
    segment was submitted; otherwise at least 30 seconds and at least
    twice the duration of every submitted segment. *)
Theorem completion_timeout_bounds (a : QuickTranscriptAssembler.t) :
  (transcription_segments a = ∅ -> _calculate_completion_timeout a = 10%Q)
  /\ (transcription_segments a <> ∅ -> (30 <= _calculate_completion_timeout a)%Q)
  /\ forall segment_id seg,
       transcription_segments a !! segment_id = Some seg ->
       (duration (segment_info seg) * 2 <= _calculate_completion_timeout a)%Q.
Proof.
  unfold _calculate_completion_timeout.
  set (durations := map (fun kv => duration (segment_info kv.2))
                        (map_to_list (transcription_segments a))).
  repeat split.
  - intros Hempty. unfold durations. now rewrite Hempty, map_to_list_empty.
  - intros Hsome. destruct durations as [|d ds] eqn:Hd.
    + exfalso. apply Hsome. apply map_to_list_empty_iff.
      unfold durations in Hd. now apply map_eq_nil in Hd.
    + eapply Qle_trans; [|apply py_max_left]. apply py_max_left.
  - intros id seg Hseg.
    assert (Hin : duration (segment_info seg) ∈ durations).
    { unfold durations. apply list_elem_of_fmap.
      exists (id, seg). split; [reflexivity|]. now apply elem_of_map_to_list. }
    pose proof (np_max_upper durations) as Hmax. rewrite Forall_forall in Hmax.
    specialize (Hmax _ Hin).
    destruct durations as [|d ds] eqn:Hd; [now apply elem_of_nil in Hin|].
    eapply Qle_trans; [|apply py_max_left].
    eapply Qle_trans; [|apply py_max_right]. lra.
Qed.

(** X19. [finalize_transcript] on a session that is under way returns a
    result and closes the session: every later submission is refused and
    changes nothing. The persistence and the clipboard collaborators are
    called with the transcript of the result only, and never with an
    empty text; a transcript with content is always handed to the
    persistence collaborator. *)
Theorem finalize_transcript_closes_session (w : world) (a : QuickTranscriptAssembler.t)
        (polls : list (list event)) (now : Q) :
  str_truthy (default EmptyString (current_session a)) = true ->
  exists result a' calls,
    finalize_transcript w a polls now = (Some result, a', calls)
    /\ is_processing a' = false
    /\ (forall segment_info submitted_at,
          add_segment_for_transcription a' segment_info submitted_at
          = (EmptyString, a'))
    /\ (forall text,
          CallPersist text ∈ calls \/ CallClipboard text ∈ calls ->
          text = transcript_text result
          /\ has_content result = true
          /\ text <> EmptyString)
    /\ (has_content result = true -> CallPersist (transcript_text result) ∈ calls).
Proof.
  intros Hsession. unfold finalize_transcript. rewrite Hsession. simpl.
  set (a1 := snd (wait_for_completion a polls)).
  set (final_transcript := strip (get_current_transcript a1)).
  destruct (str_truthy final_transcript) eqn:Hcontent.
  - assert (Hne : final_transcript <> EmptyString).
    { intros Heq. rewrite Heq in Hcontent. discriminate. }
    destruct (create_new_transcript w final_transcript) as [[path transcript_id]|];
      destruct (auto_clipboard a1); simpl;
      eexists _, _, _; (split; [reflexivity|]); simpl;
      (split; [reflexivity|]); (split; [reflexivity|]);
      (split; [|intros _; apply list_elem_of_here]);
      intros text [Hin | Hin];
      repeat (apply elem_of_cons in Hin as [Hin | Hin];
              [first [injection Hin as ->; now repeat split
                     | discriminate
                     | destruct (transcript_ready_callback a1); discriminate]|]);
      destruct (transcript_ready_callback a1);
      repeat (apply elem_of_cons in Hin as [Hin | Hin]; [discriminate|]);
      now apply elem_of_nil in Hin.
  - rewrite andb_false_r. simpl.
    eexists _, _, _. split; [reflexivity|]. simpl.
    split; [reflexivity|]. split; [reflexivity|].
    split; [|discriminate].
    intros text [Hin | Hin];
      destruct (transcript_ready_callback a1);
      repeat (apply elem_of_cons in Hin as [Hin | Hin]; [discriminate|]);
      now apply elem_of_nil in Hin.
Qed.

Lemma finalize_transcript_closes_session_witness :
  exists result a' calls,
    finalize_transcript Demo.world (run_events Demo.session Demo.out_of_order)
                        [[]] 1200
    = (Some result, a', calls)
    /\ is_processing a' = false
    /\ (forall segment_info submitted_at,
          add_segment_for_transcription a' segment_info submitted_at
          = (EmptyString, a'))
    /\ (forall text,
          CallPersist text ∈ calls \/ CallClipboard text ∈ calls ->
          text = transcript_text result
          /\ has_content result = true
          /\ text <> EmptyString)
    /\ (has_content result = true -> CallPersist (transcript_text result) ∈ calls).
Proof.
  apply (finalize_transcript_closes_session Demo.world
           (run_events Demo.session Demo.out_of_order) [[]] 1200).
  reflexivity.
Defined.

Lemma apply_event_min_chars (a : QuickTranscriptAssembler.t) (e : event) :
  empty_segment_min_chars (apply_event a e) = empty_segment_min_chars a.
Proof.
  destruct e; simpl; try reflexivity.
  - unfold add_segment_for_transcription. now destruct (negb (is_processing a)).
  - unfold transcribe_begin. now destruct (_ !! _).
  - unfold transcribe_complete. now destruct (_ !! _).
  - unfold transcribe_failed. now destruct (_ !! _).
Qed.

(** X20. A threshold of zero does not switch the auto-stop off. With
    [empty_segment_threshold <= 0] the sliding window of a new assembler
    stays empty whatever is transcribed, and [should_auto_stop] answers
    true, in every state of the session, exactly when
    [empty_segment_min_chars] is positive. *)
Theorem auto_stop_with_no_threshold (auto_clipboard : bool)
        (threshold min_chars : Z) (session_id : string) (now : Q)
        (events : list event) :
  threshold <= 0 ->
  let a := run_events
             (start_session (init auto_clipboard threshold min_chars) session_id now)
             events in
  recent_segment_texts a = []
  /\ fst (should_auto_stop a) = (0 <? min_chars).
Proof.
  intros Hthreshold a.
  assert (Hinv : recent_segment_texts a = []
                 /\ empty_segment_threshold a = threshold
                 /\ empty_segment_min_chars a = min_chars).
  { apply (run_events_invariant
             (fun a => recent_segment_texts a = []
                       /\ empty_segment_threshold a = threshold
                       /\ empty_segment_min_chars a = min_chars)).
    - intros a1 e (Hwindow & Ht & Hm).
      rewrite apply_event_threshold, apply_event_min_chars.
      split; [|now split].
      destruct e as [info submitted_at|segment_id|segment_id text spent|text|segment_id err];
        simpl; try exact Hwindow.
      + unfold add_segment_for_transcription. now destruct (negb (is_processing a1)).
      + unfold transcribe_begin. now destruct (_ !! _).
      + unfold transcribe_complete. now destruct (_ !! _).
      + rewrite Hwindow, Ht. simpl.
        destruct (Z.ltb_spec threshold (Z.of_nat 1)); [reflexivity|lia].
      + unfold transcribe_failed. now destruct (_ !! _).
    - now repeat split. }
  destruct Hinv as (Hwindow & Ht & Hm). split; [exact Hwindow|].
  unfold should_auto_stop. rewrite Hwindow, Ht, Hm. simpl.
  change (Z.of_nat 0) with 0.
  destruct (Z.ltb_spec 0 threshold); [lia|].
  now destruct (0 <? min_chars).
Qed.

Lemma auto_stop_with_no_threshold_witness :
  recent_segment_texts
    (run_events (start_session (init true 0 10) "stream_1000" 1000) Demo.out_of_order)
  = []
  /\ fst (should_auto_stop
            (run_events (start_session (init true 0 10) "stream_1000" 1000)
                        Demo.out_of_order))
     = (0 <? 10).
Proof.
  apply (auto_stop_with_no_threshold true 0 10 "stream_1000" 1000 Demo.out_of_order).
  lia.
Defined.
End AssemblerProofs.

Section RingBufferMore.
(** ** Ring buffer: further properties *)

Import CircularAudioBuffer.

(** X4. A read of no sample inside the retained window does not return
    the empty span: [buffer_start] equals [buffer_end], the branch for a
    span that wraps is taken, and the result is the whole buffer,
    [buffer_size] samples, starting at the slot of the requested offset. *)
Theorem read_segment_of_zero_samples (b : CircularAudioBuffer.t)
        (start_time_offset duration : Q) :
  0 < buffer_size b ->
  Z.of_nat (length (buffer b)) = buffer_size b ->
  time_truthy (CircularAudioBuffer.start_time b) = true ->
  duration_samples_of b duration = 0 ->
  total_samples_written b - buffer_size b <= start_sample_of b start_time_offset
  <= total_samples_written b ->
  exists segment,
    read_segment b start_time_offset duration = Ret (Some segment)
    /\ Z.of_nat (length segment) = buffer_size b
    /\ segment
       = drop (Z.to_nat (start_sample_of b start_time_offset mod buffer_size b)) (buffer b)
         ++ take (Z.to_nat (start_sample_of b start_time_offset mod buffer_size b))
                 (buffer b).
Proof.
  intros Hsize Hlen Hstart Hzero [Hlo Hhi]. unfold read_segment.
  rewrite Hstart, Hzero. simpl. rewrite Z.add_0_r.
  destruct (Z.ltb_spec (start_sample_of b start_time_offset)
                       (total_samples_written b - buffer_size b)); [lia|].
  destruct (Z.ltb_spec (total_samples_written b) (start_sample_of b start_time_offset));
    [lia|].
  unfold py_mod. destruct (Z.eqb_spec (buffer_size b) 0) as [|Hne]; [lia|]. simpl.
  rewrite Z.ltb_irrefl.
  pose proof (Z.mod_pos_bound (start_sample_of b start_time_offset) (buffer_size b) Hsize)
    as Hbound.
  unfold slice_from, slice_to. rewrite !norm_index_in_range by lia.
  eexists. split; [reflexivity|]. split; [|reflexivity].
  rewrite length_app, length_drop, length_take. lia.
Qed.

Lemma read_segment_of_zero_samples_witness :
  exists segment,
    read_segment Demo.after1 1 (1 # 4) = Ret (Some segment)
    /\ Z.of_nat (length segment) = 60.
Proof.
  destruct (read_segment_of_zero_samples Demo.after1 1 (1 # 4))
    as (segment & Hread & Hlen & _).
  - reflexivity.
  - reflexivity.
  - reflexivity.
  - reflexivity.
  - split; vm_compute; discriminate.
  - exists segment. split; [exact Hread|exact Hlen].
Defined.




(** X6. [get_latest_segment] answers unavailable, and raises nothing,
    when the buffer is not recording, and when more is asked for than the
    audio written so far lasts. *)
Theorem get_latest_segment_unavailable (b : CircularAudioBuffer.t) (duration : Q) :
  sample_rate b * channels b <> 0 ->
  is_recording b = false
  \/ (inject_Z (total_samples_written b) / inject_Z (sample_rate b * channels b)
      < duration)%Q ->
  get_latest_segment b duration = Ret None.
Proof.
  intros Hrate Hcase. unfold get_latest_segment.
  destruct (is_recording b) eqn:Hrec; simpl; [|reflexivity].
  destruct Hcase as [Hno|Hshort]; [discriminate|].
  destruct (time_truthy _); simpl; [|reflexivity].
  unfold py_truediv. apply Z.eqb_neq in Hrate. rewrite Hrate. simpl.
  apply Qlt_bool_iff in Hshort. now rewrite Hshort.
Qed.

Lemma get_latest_segment_unavailable_witness :
  get_latest_segment Demo.after1 5 = Ret None.
Proof.
  apply (get_latest_segment_unavailable Demo.after1 5).
  - vm_compute. discriminate.
  - right. vm_compute. reflexivity.
Defined.

Lemma writes_after_stop (ws : list (list Sample * Q)) (b : CircularAudioBuffer.t) :
  is_recording b = false -> writes b ws = Ret b.
Proof.
  intros Hrec. induction ws as [|[audio_data now] ws IH]; [reflexivity|].
  simpl. unfold write at 1. rewrite Hrec. simpl. exact IH.
Qed.

(** X7. [stop_recording] freezes the buffer for reading back: writes that
    arrive afterwards change nothing, every [read_segment] answers as it
    did before the stop, and the recording duration is the audio time of
    the samples written (0 when there are none), whatever the clock says. *)
Theorem stop_recording_freezes (b : CircularAudioBuffer.t)
        (ws : list (list Sample * Q)) (start_time_offset duration now : Q) :
  sample_rate b * channels b <> 0 ->
  writes (stop_recording b) ws = Ret (stop_recording b)
  /\ read_segment (stop_recording b) start_time_offset duration
     = read_segment b start_time_offset duration
  /\ get_recording_duration (stop_recording b) now
     = Ret (if total_samples_written b =? 0 then 0%Q
            else (inject_Z (total_samples_written b)
                  / inject_Z (sample_rate b * channels b))%Q).
Proof.
  intros Hrate. split; [now apply writes_after_stop|]. split; [reflexivity|].
  unfold get_recording_duration, py_truediv. simpl.
  destruct (total_samples_written b =? 0); [reflexivity|].
  apply Z.eqb_neq in Hrate. now rewrite Hrate.
Qed.

Lemma stop_recording_freezes_witness :
  writes (stop_recording Demo.after1) Demo.writes2 = Ret (stop_recording Demo.after1)
  /\ get_recording_duration (stop_recording Demo.after1) 2000
     = Ret (inject_Z 9 / inject_Z (2 * 1))%Q.
Proof.
  destruct (stop_recording_freezes Demo.after1 Demo.writes2 0 1 2000) as (Hw & _ & Hd).
  - vm_compute. discriminate.
  - split; [exact Hw|exact Hd].
Defined.
End RingBufferMore.

Section ExtractionProofs.
(** ** Segment extraction *)

Lemma retry_all_unavailable (segment : SegmentInfo)
      (buffers : nat -> CircularAudioBuffer.t) (p : SegmentProcessor.t)
      (remaining : nat) :
  forall attempt : nat,
    (forall j, (attempt <= j < attempt + remaining)%nat ->
       CircularAudioBuffer.read_segment (buffers j) (start_time segment) (duration segment)
       = Ret None) ->
    SegmentProcessor.retry remaining attempt p buffers segment = Ret (None, p).
Proof.
  induction remaining as [|remaining IH]; intros attempt Hnone; [reflexivity|].
  simpl. rewrite (Hnone attempt) by lia. simpl. apply IH.
  intros j Hj. apply Hnone. lia.
Qed.

Lemma retry_first_available (segment : SegmentInfo)
      (buffers : nat -> CircularAudioBuffer.t) (p : SegmentProcessor.t)
      (audio_data : list Sample) (k : nat) :
  forall remaining attempt : nat,
    (k < remaining)%nat ->
    (forall j, (attempt <= j < attempt + k)%nat ->
       CircularAudioBuffer.read_segment (buffers j) (start_time segment) (duration segment)
       = Ret None) ->
    CircularAudioBuffer.read_segment (buffers (attempt + k)%nat)
      (start_time segment) (duration segment) = Ret (Some audio_data) ->
    SegmentProcessor.retry remaining attempt p buffers segment
    = Ret (Some audio_data,
           SegmentProcessor.mk
             (<[SegmentProcessor.segment_id_of segment := audio_data]>
                (SegmentProcessor.processed_segments p))).
Proof.
  induction k as [|k IH]; intros remaining attempt Hk Hnone Hsome.
  - destruct remaining as [|remaining]; [lia|]. simpl.
    rewrite Nat.add_0_r in Hsome. now rewrite Hsome.
  - destruct remaining as [|remaining]; [lia|]. simpl.
    rewrite (Hnone attempt) by lia. simpl. apply IH; [lia| |].
    + intros j Hj. apply Hnone. lia.
    + now replace (S attempt + k)%nat with (attempt + S k)%nat by lia.
Qed.

(** X8. Extraction retries a bounded number of times. When the first ten
    reads are all unavailable it gives up with [None] and stores nothing,
    whatever the buffer holds later; when one of the first ten reads
    succeeds after unavailable ones, its audio is returned and stored
    under the segment's key. *)
Theorem extract_segment_audio_bounded_retry (p : SegmentProcessor.t)
        (buffers : nat -> CircularAudioBuffer.t) (segment : SegmentInfo) :
  ((forall j, (j < 10)%nat ->
      CircularAudioBuffer.read_segment (buffers j) (start_time segment) (duration segment)
      = Ret None) ->
   SegmentProcessor.extract_segment_audio p buffers segment = Ret (None, p))
  /\ (forall (k : nat) (audio_data : list Sample),
        (k < 10)%nat ->
        (forall j, (j < k)%nat ->
           CircularAudioBuffer.read_segment (buffers j)
             (start_time segment) (duration segment) = Ret None) ->
        CircularAudioBuffer.read_segment (buffers k)
          (start_time segment) (duration segment) = Ret (Some audio_data) ->
        SegmentProcessor.extract_segment_audio p buffers segment
        = Ret (Some audio_data,
               SegmentProcessor.mk
                 (<[SegmentProcessor.segment_id_of segment := audio_data]>
                    (SegmentProcessor.processed_segments p)))).
Proof.
  unfold SegmentProcessor.extract_segment_audio, SegmentProcessor.max_retries. split.
  - intros Hnone. apply retry_all_unavailable. intros j Hj. apply Hnone. lia.
  - intros k audio_data Hk Hnone Hsome.
    apply (retry_first_available segment buffers p audio_data k); [exact Hk| |exact Hsome].
    intros j Hj. apply Hnone. lia.
Qed.

(** The producer catches up during the second sleep: the segment from 3 s
    to 4.5 s is not yet written at the first two attempts. *)
Lemma extract_segment_audio_bounded_retry_witness :
  SegmentProcessor.extract_segment_audio SegmentProcessor.init
    (fun attempt => if (attempt <? 2)%nat then Demo.two_seconds else Demo.after1)
    (mkSegmentInfo 3 (9 # 2) (3 # 2) "final_flush" 0 0 0)
  = Ret (Some [1 # 2; 1 # 2; 1 # 2]%Q,
         SegmentProcessor.mk (<["3.0-4.5" := [1 # 2; 1 # 2; 1 # 2]%Q]> ∅)).
Proof.
  apply (proj2 (extract_segment_audio_bounded_retry SegmentProcessor.init
                  (fun attempt => if (attempt <? 2)%nat then Demo.two_seconds
                                  else Demo.after1)
                  (mkSegmentInfo 3 (9 # 2) (3 # 2) "final_flush" 0 0 0)) 2%nat).
  - lia.
  - intros j Hj. destruct j as [|[|j]]; [reflexivity|reflexivity|lia].
  - reflexivity.
Defined.

(** X9. A segment that lies inside the samples written and retained, and
    holds at least one sample, is extracted at the first attempt, and the
    audio is exactly the samples written at its positions. *)
Theorem extract_segment_audio_written_samples (p : SegmentProcessor.t)
        (buffers : nat -> CircularAudioBuffer.t) (stream : list Sample)
        (segment : SegmentInfo) :
  ring_holds (buffers O) stream ->
  let b := buffers O in
  let start_sample := CircularAudioBuffer.start_sample_of b (start_time segment) in
  let duration_samples := CircularAudioBuffer.duration_samples_of b (duration segment) in
  0 <= start_sample -> 0 < duration_samples ->
  CircularAudioBuffer.total_samples_written b - CircularAudioBuffer.buffer_size b
  <= start_sample ->
  start_sample + duration_samples <= CircularAudioBuffer.total_samples_written b ->
  SegmentProcessor.extract_segment_audio p buffers segment
  = Ret (Some (span_of stream start_sample duration_samples),
         SegmentProcessor.mk
           (<[SegmentProcessor.segment_id_of segment
              := span_of stream start_sample duration_samples]>
              (SegmentProcessor.processed_segments p))).
Proof.
  intros Hring b s d Hs Hd Hretained Hend.
  unfold SegmentProcessor.extract_segment_audio, SegmentProcessor.max_retries.
  apply (retry_first_available segment buffers p _ 0); [lia|intros j Hj; lia|].
  now apply read_segment_holds.
Qed.

Lemma extract_segment_audio_written_samples_witness :
  SegmentProcessor.extract_segment_audio SegmentProcessor.init
    (fun _ => Demo.after1) (mkSegmentInfo 0 3 3 "natural_pause" 0 0 0)
  = Ret (Some [1 # 2; 1 # 2; 1 # 2; 1 # 2; 0; 0]%Q,
         SegmentProcessor.mk (<["0.0-3.0" := [1 # 2; 1 # 2; 1 # 2; 1 # 2; 0; 0]%Q]> ∅)).
Proof.
  assert (Hring : ring_holds Demo.after1 (stream_of Demo.writes1)).
  { destruct (writes_hold Demo.writes1 Demo.started []) as (b & Hb & Hring & _).
    - apply (start_recording_holds Demo.fresh 1000); [reflexivity|reflexivity|discriminate].
    - repeat constructor; vm_compute; discriminate.
    - vm_compute in Hb. injection Hb as <-. exact Hring. }
  apply (extract_segment_audio_written_samples SegmentProcessor.init
           (fun _ => Demo.after1) (stream_of Demo.writes1)
           (mkSegmentInfo 0 3 3 "natural_pause" 0 0 0) Hring);
    vm_compute; (reflexivity || discriminate).
Defined.
End ExtractionProofs.
